(** * gauge_chart: the data-transformation layer of [src/utils.js]

    A shallow embedding of the worksheet helpers (encoding map, named rows,
    data encoder, selection matcher) and of the fog colour constants.

    JavaScript objects used as dictionaries ([encodingMap], a named row, an
    encoded row) are finite maps from property names to values, holding the
    object's own properties.  A property read looks among them first; a name
    that is not an own property reads as the member every plain object
    inherits from [Object.prototype] ([constructor], [toString], ...) when
    there is one of that name, and as [undefined] otherwise.  An assignment
    creates or updates an own property, except under the name [__proto__]:
    assigning [undefined] there does nothing, and assigning an object
    makes it the prototype; the map keeps that object under [__proto__],
    where a later read of that name finds it.  What else an object then
    inherits from a prototype that is a host data value is the host's
    matter and is not followed; the statements that read rows say where
    they leave such rows out.  The enumeration order of [for ... in] is not
    observable in a finite map; no statement below depends on it.  A
    property read on [undefined], and a call of a member that is not
    there, throws, which is the [TypeError] result. *)

From Stdlib Require Import ZArith String List Lia.
From Stdlib Require Import PrimFloat FloatOps SpecFloat.
From stdpp Require Import base option list gmap strings fin_maps.

Set Warnings "-register-all,-inexact-float".

Local Open Scope string_scope.
Local Open Scope Z_scope.
Local Open Scope list_scope.

(** ** Exceptions *)

Inductive result (A : Type) : Type :=
| Ok (a : A)
| TypeError.
Arguments Ok {A} a.
Arguments TypeError {A}.

#[global] Instance result_ret : MRet result := fun A a => Ok a.
#[global] Instance result_bind : MBind result := fun A B k r =>
  match r with
  | Ok a => k a
  | TypeError => TypeError
  end.

Definition isOk {A} (r : result A) : bool :=
  match r with Ok _ => true | TypeError => false end.

(** ** Inherited members *)

(** The names of the members of [Object.prototype], which every object
    created by [{}] inherits. *)
Definition objectPrototypeMembers : list string :=
  [ "constructor"; "hasOwnProperty"; "isPrototypeOf"; "propertyIsEnumerable";
    "toLocaleString"; "toString"; "valueOf"; "__proto__";
    "__defineGetter__"; "__defineSetter__"; "__lookupGetter__";
    "__lookupSetter__" ].

Definition inherited (name : string) : bool :=
  existsb (String.eqb name) objectPrototypeMembers.
Arguments inherited name : simpl never.

(** ** Visual specification *)

Record Field := { name : string }.

Record Encoding := { id : string; field : Field }.

Record MarksSpecification := { encodings : list Encoding }.

Record VisualSpecification := {
  activeMarksSpecificationIndex : Z;
  marksSpecifications : list MarksSpecification
}.

(** ** getEncodingMap *)

(** One turn of the loop over [marksCard.encodings].  [encodingMap[id]] is
    falsy only when [id] is neither an own property nor an inherited
    member; only then is the empty list created.  The push then needs a
    list: on an inherited member (a function or [Object.prototype]) there
    is no [push], and the call throws. *)
Definition addEncoding (encodingMap : gmap string (list Field))
    (encoding : Encoding) : result (gmap string (list Field)) :=
  let encodingMap' :=
    match encodingMap !! id encoding with
    | Some _ => encodingMap
    | None =>
        if inherited (id encoding) then encodingMap
        else <[id encoding := []]> encodingMap
    end in
  match encodingMap' !! id encoding with
  | Some fields => Ok (<[id encoding := fields ++ [field encoding]]> encodingMap')
  | None => TypeError
  end.

Fixpoint encodingLoop (encodingMap : gmap string (list Field))
    (encodings : list Encoding) : result (gmap string (list Field)) :=
  match encodings with
  | [] => Ok encodingMap
  | encoding :: rest =>
      encodingMap' ← addEncoding encodingMap encoding;
      encodingLoop encodingMap' rest
  end.

Definition getEncodingMap (visualSpec : VisualSpecification)
  : result (gmap string (list Field)) :=
  if activeMarksSpecificationIndex visualSpec <? 0 then Ok ∅
  else
    match marksSpecifications visualSpec
            !! Z.to_nat (activeMarksSpecificationIndex visualSpec) with
    | None => TypeError
    | Some marksCard => encodingLoop ∅ (encodings marksCard)
    end.

(** ** Host data *)

Section Host.

(** The raw native values a host cell holds (strings, numbers, booleans) and
    the string conversion that [+] applies to them. *)
Variable prim : Type.
Variable ToString : prim -> string.

Record DataValue := { value : prim }.

Record Column := { fieldName : string; index : nat }.

Record DataTable := {
  columns : list Column;
  data : list (list DataValue)
}.

(** What a property read on a row or on an encoded row can give:
    [VInherited k] is the member of [Object.prototype] called [k] (a
    function, or [Object.prototype] itself for [__proto__]). *)
Inductive jsval : Type :=
| VUndef
| VNum (n : Z)
| VData (d : DataValue)
| VArr (l : list jsval)
| VInherited (k : string).

(** [a[i]] on an array of cells: [undefined] out of range. *)
Definition cellAt (cells : list DataValue) (i : nat) : jsval :=
  match cells !! i with
  | Some d => VData d
  | None => VUndef
  end.

(** [obj[name]] on a row or an encoded row. *)
Definition getProp (obj : gmap string jsval) (name : string) : jsval :=
  match obj !! name with
  | Some v => v
  | None => if inherited name then VInherited name else VUndef
  end.

(** [row[name] = cell].  Under [__proto__] a value that is no object
    ([undefined], a number) is dropped, and an object becomes the
    prototype, kept under that name. *)
Definition assignCell (row : gmap string jsval) (name : string) (cell : jsval)
  : gmap string jsval :=
  if String.eqb name "__proto__" then
    match cell with
    | VUndef | VNum _ => row
    | VData _ | VArr _ | VInherited _ => <[name := cell]> row
    end
  else <[name := cell]> row.

(** ** convertToListOfNamedRows *)

(** The inner loop over [columns], started from [{ $tupleId: i + 1 }]. *)
Definition namedRow (columns : list Column) (i : nat) (cells : list DataValue)
  : gmap string jsval :=
  foldl (fun row col => assignCell row (fieldName col) (cellAt cells (index col)))
        {[ "$tupleId" := VNum (Z.of_nat i + 1) ]} columns.

(** The outer loop, from row index [i] on. *)
Fixpoint namedRowsFrom (columns : list Column) (i : nat)
    (data : list (list DataValue)) : list (gmap string jsval) :=
  match data with
  | [] => []
  | cells :: rest => namedRow columns i cells :: namedRowsFrom columns (S i) rest
  end.

Definition convertToListOfNamedRows (dataTablePage : DataTable)
  : list (gmap string jsval) :=
  namedRowsFrom (columns dataTablePage) 0 (data dataTablePage).

(** ** getSummaryDataTable

    The reader is the list of its pages: [pageCount] is its length and
    [getPageAsync currentPage] its [currentPage]-th element; the pages are
    awaited one after the other. *)
Definition getSummaryDataTable (pages : list DataTable)
  : list (gmap string jsval) :=
  foldl (fun rows dataTablePage => rows ++ convertToListOfNamedRows dataTablePage)
        [] pages.


(** ** findIdsOfMarks *)

(** The separator ['\x00']. *)
Definition NUL : string := String (Ascii.ascii_of_nat 0) EmptyString.

(** [cell.value + '\x00']: reading [.value] throws on [undefined]; a
    number, an array or an inherited member has no such property, and
    [undefined] prints as its name. *)
Definition valuePart (cell : jsval) : result string :=
  match cell with
  | VUndef => TypeError
  | VData d => Ok (ToString (value d) ++ NUL)%string
  | VNum _ | VArr _ | VInherited _ => Ok ("undefined" ++ NUL)%string
  end.

(** The loop [for (const col of columns) key += row[col.fieldName].value + '\x00']. *)
Fixpoint keyLoop (row : gmap string jsval) (key : string)
    (columns : list Column) : result string :=
  match columns with
  | [] => Ok key
  | col :: rest =>
      part ← valuePart (getProp row (fieldName col));
      keyLoop row (key ++ part)%string rest
  end.

Definition rowKey (columns : list Column) (row : gmap string jsval)
  : result string :=
  keyLoop row "" columns.

(** The collection the host reports for the selection: [tables] is its
    [data] property, a list of data tables. *)
Record MarksCollection := { tables : list DataTable }.

Fixpoint selectedLoop (columns : list Column)
    (selectedMarkMap : gmap string (gmap string jsval))
    (selectedRows : list (gmap string jsval))
  : result (gmap string (gmap string jsval)) :=
  match selectedRows with
  | [] => Ok selectedMarkMap
  | selectedMark :: rest =>
      key ← rowKey columns selectedMark;
      selectedLoop columns (<[key := selectedMark]> selectedMarkMap) rest
  end.

Fixpoint marksLoop (columns : list Column)
    (selectedMarkMap : gmap string (gmap string jsval))
    (tupleId : Z) (selectedMarksIds : gset Z)
    (allMarks : list (gmap string jsval)) : result (gset Z) :=
  match allMarks with
  | [] => Ok selectedMarksIds
  | mark :: rest =>
      key ← rowKey columns mark;
      marksLoop columns selectedMarkMap (tupleId + 1)
        (match selectedMarkMap !! key with
         | Some _ => {[ tupleId ]} ∪ selectedMarksIds
         | None => selectedMarksIds
         end) rest
  end.

Definition findIdsOfMarks (allMarks : list (gmap string jsval))
    (selectedMarks : MarksCollection) : result (gset Z) :=
  match tables selectedMarks with
  | [] => Ok ∅
  | table :: _ =>
      selectedMarkMap ←
        selectedLoop (columns table) ∅ (convertToListOfNamedRows table);
      marksLoop (columns table) selectedMarkMap 1 ∅ allMarks
  end.

(** ** getDataAndVisualSpec *)

(** The innermost loop: push [row[field.name]] for each field. *)
Definition pushFields (row : gmap string jsval) (fields : list Field)
  : list jsval :=
  foldl (fun values field => values ++ [getProp row (name field)]) [] fields.

(** The loop over the channels of [encodingMap], started from
    [{ $tupleId: tupleId }].  What is assigned is always a list, so that
    under any name, [__proto__] too, the map holds the list afterwards. *)
Definition encodeRow (encodingMap : gmap string (list Field)) (tupleId : Z)
    (row : gmap string jsval) : gmap string jsval :=
  map_fold (fun encName fields encodedRow =>
              <[encName := VArr (pushFields row fields)]> encodedRow)
           {[ "$tupleId" := VNum tupleId ]} encodingMap.

(** The loop over [originalData], with its counter. *)
Fixpoint encodeLoop (encodingMap : gmap string (list Field)) (tupleId : Z)
    (originalData : list (gmap string jsval)) : list (gmap string jsval) :=
  match originalData with
  | [] => []
  | row :: rest =>
      encodeRow encodingMap tupleId row :: encodeLoop encodingMap (tupleId + 1) rest
  end.

Definition encodeData (encodingMap : gmap string (list Field))
    (originalData : list (gmap string jsval)) : list (gmap string jsval) :=
  encodeLoop encodingMap 1 originalData.

(** What the worksheet answers to the three host calls. *)
Record Worksheet := {
  summaryData : list DataTable;
  visualSpecification : VisualSpecification;
  selectedMarksOf : MarksCollection
}.

Record DataAndVisualSpec := {
  originalData : list (gmap string jsval);
  encodedData : list (gmap string jsval);
  visualSpec : VisualSpecification;
  encodingMap : gmap string (list Field)
}.

Definition getDataAndVisualSpec (worksheet : Worksheet)
  : result DataAndVisualSpec :=
  let rows := getSummaryDataTable (summaryData worksheet) in
  m ← getEncodingMap (visualSpecification worksheet);
  Ok {| originalData := rows;
        encodedData := encodeData m rows;
        visualSpec := visualSpecification worksheet;
        encodingMap := m |}.

Definition getEncodedData (worksheet : Worksheet)
  : result (list (gmap string jsval)) :=
  results ← getDataAndVisualSpec worksheet;
  Ok (encodedData results).

Definition getSelectedMarks (worksheet : Worksheet)
    (allMarks : list (gmap string jsval)) : result (gset Z) :=
  findIdsOfMarks allMarks (selectedMarksOf worksheet).

Definition getEncodedDataAndSelectedTuples (worksheet : Worksheet)
  : result (list (gmap string jsval) * gset Z) :=
  results ← getDataAndVisualSpec worksheet;
  selectedTupleIds ← getSelectedMarks worksheet (originalData results);
  Ok (encodedData results, selectedTupleIds).

End Host.

Arguments VUndef {prim}.
Arguments VNum {prim} n.
Arguments VData {prim} d.
Arguments VArr {prim} l.
Arguments VInherited {prim} k.
Arguments assignCell {prim} row name cell.
Arguments value {prim} d.
Arguments columns {prim} d.
Arguments data {prim} d.
Arguments tables {prim} m.
Arguments cellAt {prim} cells i.
Arguments getProp {prim} obj name.
Arguments namedRow {prim} columns i cells.
Arguments namedRowsFrom {prim} columns i data.
Arguments convertToListOfNamedRows {prim} dataTablePage.
Arguments getSummaryDataTable {prim} pages.
Arguments valuePart {prim} ToString cell.
Arguments keyLoop {prim} ToString row key columns.
Arguments rowKey {prim} ToString columns row.
Arguments selectedLoop {prim} ToString columns selectedMarkMap selectedRows.
Arguments marksLoop {prim} ToString columns selectedMarkMap tupleId selectedMarksIds allMarks.
Arguments findIdsOfMarks {prim} ToString allMarks selectedMarks.
Arguments pushFields {prim} row fields.
Arguments encodeRow {prim} encodingMap tupleId row.
Arguments encodeLoop {prim} encodingMap tupleId originalData.
Arguments encodeData {prim} encodingMap originalData.
Arguments summaryData {prim} w.
Arguments visualSpecification {prim} w.
Arguments selectedMarksOf {prim} w.
Arguments originalData {prim} d.
Arguments encodedData {prim} d.
Arguments visualSpec {prim} d.
Arguments encodingMap {prim} d.
Arguments getDataAndVisualSpec {prim} worksheet.
Arguments getEncodedData {prim} worksheet.
Arguments getSelectedMarks {prim} ToString worksheet allMarks.
Arguments getEncodedDataAndSelectedTuples {prim} ToString worksheet.

(** ** Fog colours

    A colour is what [toRgb()] returns for it: three integer channels.
    Blend factors are binary64 numbers, multiplied and added as the
    processor does; [>>> 0] is the conversion to an unsigned 32-bit
    integer. *)

Module Fog.

Record Rgb := { r : Z; g : Z; b : Z }.

(** An integer as a number (exact below [2^53]). *)
Definition Number (z : Z) : float :=
  SF2Prim (binary_normalize prec emax z 0 false).

(** [x >>> 0]: truncate towards zero, then reduce modulo [2^32]; zero,
    infinities and NaN give [0]. *)
Definition ToUint32 (x : float) : Z :=
  match Prim2SF x with
  | S754_finite s m e =>
      let magnitude := Z.shiftl (Z.pos m) e in
      (if s then - magnitude else magnitude) mod 2 ^ 32
  | _ => 0
  end.

Definition DefaultFogBlendFactor : float := 0.1850000023841858%float.
Definition DarkBgFogBlendFactor : float := 0.2750000059604645%float.
Definition DarkBgThreshold : Z := 75.

Definition getFogBlendFactor (color : Rgb) : float :=
  let isDarkBackground :=
    (r color <=? DarkBgThreshold) && (g color <=? DarkBgThreshold)
    && (b color <=? DarkBgThreshold) in
  if isDarkBackground then DarkBgFogBlendFactor else DefaultFogBlendFactor.

Definition CloseToWhite : Z := 245.

Record FoggedBackground := {
  foggedBackgroundRed : Z;
  foggedBackgroundGreen : Z;
  foggedBackgroundBlue : Z
}.

(** [((1 - fogBlendFactor) * channel) >>> 0] *)
Definition fogChannel (fogBlendFactor : float) (channel : Z) : Z :=
  ToUint32 ((1 - fogBlendFactor) * Number channel)%float.

Definition computeFoggedBackgroundColor (color : Rgb) (fogBlendFactor : float)
  : FoggedBackground :=
  let rgbColor :=
    if (r color >=? CloseToWhite) && (g color >=? CloseToWhite)
       && (b color >=? CloseToWhite)
    then {| r := CloseToWhite; g := CloseToWhite; b := CloseToWhite |}
    else color in
  {| foggedBackgroundRed := fogChannel fogBlendFactor (r rgbColor);
     foggedBackgroundGreen := fogChannel fogBlendFactor (g rgbColor);
     foggedBackgroundBlue := fogChannel fogBlendFactor (b rgbColor) |}.

(** [tinycolor('white')] *)
Definition backgroundColor : Rgb := {| r := 255; g := 255; b := 255 |}.

Definition fogBlendFactor : float := getFogBlendFactor backgroundColor.

Definition foggedBackground : FoggedBackground :=
  computeFoggedBackgroundColor backgroundColor fogBlendFactor.

(** The three channels [calculateFogColor] hands back to the colour
    library, for a colour already parsed. *)
Definition calculateFogColor (color : Rgb) : Rgb :=
  {| r := ToUint32 (Number (foggedBackgroundRed foggedBackground)
                    + Number (r color) * fogBlendFactor)%float;
     g := ToUint32 (Number (foggedBackgroundGreen foggedBackground)
                    + Number (g color) * fogBlendFactor)%float;
     b := ToUint32 (Number (foggedBackgroundBlue foggedBackground)
                    + Number (b color) * fogBlendFactor)%float |}.

End Fog.

(** ** Sample inputs *)

Definition F1 : Field := {| name := "SUM(Sales)" |}.
Definition F2 : Field := {| name := "Ship Mode" |}.
Definition F3 : Field := {| name := "Category" |}.

Definition sampleMarksCard : MarksSpecification :=
  {| encodings := [ {| id := "edge"; field := F1 |};
                    {| id := "levels"; field := F2 |};
                    {| id := "edge"; field := F3 |} ] |}.

Definition sampleVisualSpec : VisualSpecification :=
  {| activeMarksSpecificationIndex := 0;
     marksSpecifications := [ sampleMarksCard ] |}.

(** A marks card with an encoding called like an inherited member. *)
Definition constructorCard : MarksSpecification :=
  {| encodings := [ {| id := "edge"; field := F1 |};
                    {| id := "constructor"; field := F2 |} ] |}.

Definition constructorSpec : VisualSpecification :=
  {| activeMarksSpecificationIndex := 0;
     marksSpecifications := [ constructorCard ] |}.

Definition noActiveMarksSpec : VisualSpecification :=
  {| activeMarksSpecificationIndex := -1;
     marksSpecifications := [ sampleMarksCard ] |}.

Definition colA : Column := {| fieldName := "A"; index := 0%nat |}.
Definition colB : Column := {| fieldName := "B"; index := 1%nat |}.

Definition cell (s : string) : DataValue string := {| value := s |}.

(** One page holding the rows [{A: 1, B: x}] and [{A: 2, B: y}]. *)
Definition samplePage : DataTable string :=
  {| columns := [colA; colB];
     data := [ [cell "1"; cell "x"]; [cell "2"; cell "y"] ] |}.

(** The same two rows, one per page. *)
Definition firstPage : DataTable string :=
  {| columns := [colA; colB]; data := [ [cell "1"; cell "x"] ] |}.
Definition secondPage : DataTable string :=
  {| columns := [colA; colB]; data := [ [cell "2"; cell "y"] ] |}.

(** A selection of the row [{A: 2, B: y}], and one of [{A: 1, B: x}]. *)
Definition selectedTable : DataTable string := secondPage.
Definition otherTable : DataTable string := firstPage.


(** A row without any of the columns: reading a cell of it gives
    [undefined], and reading [.value] of that throws. *)
Definition bareMark : gmap string (jsval string) := {[ "$tupleId" := VNum 1 ]}.

Definition sampleEncodingMap : gmap string (list Field) :=
  <["edge" := [ {| name := "A" |}; {| name := "Missing" |} ]]>
    (<["levels" := [ {| name := "B" |} ]]> ∅).

(** A channel with a field called like an inherited member. *)
Definition constructorEncodingMap : gmap string (list Field) :=
  <["edge" := [ {| name := "A" |}; {| name := "constructor" |} ]]> ∅.

(** ** Predicates used in the statements *)

(** The fields of the entries declared for channel [k], in declaration order. *)
Definition fieldsOf (k : string) (es : list Encoding) : list Field :=
  field <$> filter (fun e => id e = k) es.

(** Every row of [rows] has a composite key: no cell read for a column of
    [columns] is [undefined]. *)
Definition keysDefined {prim : Type} (ToString : prim -> string)
    (columns : list Column) (rows : list (gmap string (jsval prim))) : bool :=
  forallb (fun row => isOk (rowKey ToString columns row)) rows.

(** The Data Values a row holds, as own properties, under the columns'
    field names, in column order. *)
Definition rowValues {prim : Type} (cols : list Column)
    (row : gmap string (jsval prim)) : list (DataValue prim) :=
  omap (fun col => match row !! fieldName col with
                   | Some (VData d) => Some d
                   | _ => None
                   end) cols.

(** The cells of a data row at the columns' indices, in column order. *)
Definition cellValues {prim : Type} (cols : list Column)
    (cells : list (DataValue prim)) : list (DataValue prim) :=
  omap (fun col => cells !! index col) cols.

(** Every row holds a Data Value of its own under every column's field
    name. *)
Definition holdsCells {prim : Type} (cols : list Column)
    (rows : list (gmap string (jsval prim))) : bool :=
  forallb (fun row =>
             forallb (fun col => match row !! fieldName col with
                                 | Some (VData _) => true
                                 | _ => false
                                 end) cols) rows.

(** Every data row of the table has a cell at every column's index. *)
Definition cellsInRange {prim : Type} (table : DataTable prim) : bool :=
  forallb (fun cells =>
             forallb (fun col => (index col <? length cells)%nat) (columns table))
          (data table).

(** The composite key of a row as the spec words it: the [.value] of each
    column's Data Value, in column order, each followed by the separator. *)
Definition compositeKey {prim : Type} (ToString : prim -> string)
    (values : list (DataValue prim)) : string :=
  foldr (fun d key => (ToString (value d) ++ NUL ++ key)%string) "" values.

(** The clamp of the spec's words: each channel on its own, to at most
    [CloseToWhite]. *)
Definition clampEachChannel (color : Fog.Rgb) : Fog.Rgb :=
  {| Fog.r := Z.min (Fog.r color) Fog.CloseToWhite;
     Fog.g := Z.min (Fog.g color) Fog.CloseToWhite;
     Fog.b := Z.min (Fog.b color) Fog.CloseToWhite |}.

Definition pureRed : Fog.Rgb := {| Fog.r := 255; Fog.g := 0; Fog.b := 0 |}.

(** ** The caller in [src/code/circular-barplot-3.js] *)

(** Truthiness of a property value: [undefined] and the number zero are
    falsy, objects, arrays and functions are truthy. *)
Definition truthy {prim : Type} (v : jsval prim) : bool :=
  match v with
  | VUndef => false
  | VNum n => negb (n =? 0)
  | VData _ => true
  | VArr _ => true
  | VInherited _ => true
  end.

(** What one run of [window.fetchDataAndRender] ends in: the chart is
    rendered, the warning is printed, or a thrown error is caught and
    logged. *)
Inductive RenderOutcome (prim : Type) : Type :=
| RenderGaugeChart (data : list (gmap string (jsval prim)))
| WarnNoValidData
| LogError.
Arguments RenderGaugeChart {prim} data.
Arguments WarnNoValidData {prim}.
Arguments LogError {prim}.

(** [window.fetchDataAndRender]: the module variable [data] before and after,
    and the outcome.  The assignment happens once the data is loaded; a
    throw leaves the variable as it was. *)
Definition fetchDataAndRender {prim : Type}
    (data : list (gmap string (jsval prim))) (worksheet : Worksheet prim)
  : list (gmap string (jsval prim)) * RenderOutcome prim :=
  match getEncodedData worksheet with
  | TypeError => (data, LogError)
  | Ok data' =>
      (data',
       match data' with
       | [] => WarnNoValidData
       | first :: _ =>
           if truthy (getProp first "needleValue") then RenderGaugeChart data'
           else WarnNoValidData
       end)
  end.

(** ** More predicates used in the statements *)

(** No character of [s] is the separator. *)
Fixpoint nulFree (s : string) : bool :=
  match s with
  | EmptyString => true
  | String c rest => negb (Ascii.eqb c (Ascii.ascii_of_nat 0)) && nulFree rest
  end.

(** The number of fields an encoding map holds, over all its channels. *)
Definition fieldCount (encodingMap : gmap string (list Field)) : nat :=
  map_fold (fun _ fields n => (length fields + n)%nat) 0%nat encodingMap.

(** The number of data rows of a list of pages. *)
Definition rowCount {prim : Type} (pages : list (DataTable prim)) : nat :=
  sum_list_with (fun page => length (data page)) pages.

(** A colour channel as the colour library gives it: an integer of 0..255. *)
Definition isChannel (c : Z) : Prop := 0 <= c <= 255.

Definition isColor (color : Fog.Rgb) : Prop :=
  isChannel (Fog.r color) /\ isChannel (Fog.g color) /\ isChannel (Fog.b color).

(** ** More sample inputs *)

Definition needleSpec : VisualSpecification :=
  {| activeMarksSpecificationIndex := 0;
     marksSpecifications :=
       [ {| encodings := [ {| id := "needleValue"; field := {| name := "A" |} |} ] |} ] |}.

Definition sampleWorksheet : Worksheet string :=
  {| summaryData := [firstPage; secondPage];
     visualSpecification := needleSpec;
     selectedMarksOf := {| tables := [selectedTable] |} |}.

(** * Properties *)

(** ** The encoding map *)

(** The two steps of one turn, taken together. *)
Lemma addEncoding_cases (m : gmap string (list Field)) (e : Encoding) :
  addEncoding m e =
    match m !! id e with
    | Some fields => Ok (<[id e := fields ++ [field e]]> m)
    | None =>
        if inherited (id e) then TypeError
        else Ok (<[id e := [field e]]> m)
    end.
Proof.
  unfold addEncoding. destruct (m !! id e) as [fields|] eqn:Hm.
  - rewrite Hm. reflexivity.
  - destruct (inherited (id e)).
    + rewrite Hm. reflexivity.
    + rewrite lookup_insert_eq, insert_insert_eq. reflexivity.
Qed.

Lemma addEncoding_lookup (m m' : gmap string (list Field)) (e : Encoding)
    (k : string) :
  addEncoding m e = Ok m' ->
  m' !! k =
    if decide (id e = k) then Some (default [] (m !! k) ++ [field e])
    else m !! k.
Proof.
  rewrite addEncoding_cases. destruct (m !! id e) as [fields|] eqn:Hm.
  - intros [= <-]. case_decide as Hk.
    + subst k. rewrite lookup_insert_eq, Hm. reflexivity.
    + apply lookup_insert_ne, Hk.
  - destruct (inherited (id e)); [discriminate|]. intros [= <-].
    case_decide as Hk.
    + subst k. rewrite lookup_insert_eq, Hm. reflexivity.
    + apply lookup_insert_ne, Hk.
Qed.

Lemma addEncoding_plain (m : gmap string (list Field)) (e : Encoding) :
  inherited (id e) = false -> exists m', addEncoding m e = Ok m'.
Proof.
  intros Hplain. rewrite addEncoding_cases, Hplain.
  destruct (m !! id e); eauto.
Qed.

Lemma fieldsOf_cons (k : string) (e : Encoding) (es : list Encoding) :
  fieldsOf k (e :: es) =
    if decide (id e = k) then field e :: fieldsOf k es else fieldsOf k es.
Proof.
  unfold fieldsOf. rewrite filter_cons. case_decide; reflexivity.
Qed.

Lemma encodingLoop_lookup (es : list Encoding) :
  forall (m : gmap string (list Field)),
    forallb (fun e => negb (inherited (id e))) es = true ->
    exists m',
      encodingLoop m es = Ok m'
      /\ forall k,
           m' !! k =
             match fieldsOf k es with
             | [] => m !! k
             | fs => Some (default [] (m !! k) ++ fs)
             end.
Proof.
  induction es as [|e es IH]; intros m Hplain.
  - exists m. split; reflexivity.
  - cbn [forallb] in Hplain. apply andb_prop in Hplain.
    destruct Hplain as [He Hes]. apply negb_true_iff in He.
    destruct (addEncoding_plain m e He) as [m1 Hm1].
    destruct (IH m1 Hes) as (m' & Hloop & Hlookup).
    exists m'. split.
    + cbn [encodingLoop]. rewrite Hm1. exact Hloop.
    + intros k. rewrite Hlookup, fieldsOf_cons, (addEncoding_lookup m m1 e k Hm1).
      case_decide as Hk.
      * destruct (fieldsOf k es) as [|f fs]; simpl.
        -- reflexivity.
        -- rewrite <- app_assoc. reflexivity.
      * reflexivity.
Qed.

Lemma fieldsOf_nil_iff (k : string) (es : list Encoding) :
  fieldsOf k es = [] <-> k ∉ id <$> es.
Proof.
  induction es as [|e es IH]; [split; [intros _; apply not_elem_of_nil|reflexivity]|].
  rewrite fieldsOf_cons, fmap_cons, not_elem_of_cons. case_decide as Hk.
  - split; [discriminate|]. intros [Hne _]. congruence.
  - rewrite IH. split; [intros H; split; [congruence|exact H]|intros [_ H]; exact H].
Qed.

(** C5: a visual specification whose active marks specification index is
    negative gives the empty encoding map, whatever its marks
    specifications are. *)
Theorem getEncodingMap_negative_index (visualSpec : VisualSpecification) :
  activeMarksSpecificationIndex visualSpec < 0 ->
  getEncodingMap visualSpec = Ok ∅.
Proof.
  intros Hneg. unfold getEncodingMap.
  apply Z.ltb_lt in Hneg. rewrite Hneg. reflexivity.
Qed.

Lemma getEncodingMap_negative_index_witness :
  getEncodingMap noActiveMarksSpec = Ok ∅.
Proof.
  apply (getEncodingMap_negative_index noActiveMarksSpec).
  simpl. lia.
Defined.

(** C6, as amended: with a non-negative active index that selects a marks
    card none of whose encoding ids is the name of a member inherited from
    [Object.prototype], the encoding map has a key for exactly the encoding
    ids that occur in the card's encoding list, and each key holds the
    fields of all the entries with that id, in declaration order (so no key
    holds an empty list). *)
Theorem getEncodingMap_active_card (visualSpec : VisualSpecification)
    (marksCard : MarksSpecification) :
  0 <= activeMarksSpecificationIndex visualSpec ->
  marksSpecifications visualSpec
    !! Z.to_nat (activeMarksSpecificationIndex visualSpec) = Some marksCard ->
  forallb (fun e => negb (inherited (id e))) (encodings marksCard) = true ->
  exists encodingMap : gmap string (list Field),
    getEncodingMap visualSpec = Ok encodingMap
    /\ (forall k, is_Some (encodingMap !! k) <-> k ∈ id <$> encodings marksCard)
    /\ (forall k fields, encodingMap !! k = Some fields ->
          fields = fieldsOf k (encodings marksCard) /\ fields <> []).
Proof.
  intros Hidx Hcard Hplain.
  destruct (encodingLoop_lookup (encodings marksCard) ∅ Hplain)
    as (m & Hloop & Hlookup).
  exists m. split.
  - unfold getEncodingMap.
    apply Z.ltb_ge in Hidx. rewrite Hidx, Hcard. exact Hloop.
  - split.
    + intros k. rewrite Hlookup, lookup_empty.
      pose proof (fieldsOf_nil_iff k (encodings marksCard)) as Hnil.
      destruct (fieldsOf k (encodings marksCard)) as [|f fs].
      * split; [intros [x Hx]; discriminate|].
        intros Hin. exfalso. apply (proj1 Hnil); [reflexivity|exact Hin].
      * split; [|intros _; eexists; reflexivity].
        intros _. destruct (decide (k ∈ id <$> encodings marksCard)) as [Hin|Hout];
          [exact Hin|]. apply Hnil in Hout. discriminate.
    + intros k fields. rewrite Hlookup, lookup_empty.
      destruct (fieldsOf k (encodings marksCard)) as [|f fs];
        [discriminate|]. simpl. intros [= <-]. split; [reflexivity|discriminate].
Qed.

Lemma getEncodingMap_active_card_witness :
  exists encodingMap : gmap string (list Field),
    getEncodingMap sampleVisualSpec = Ok encodingMap
    /\ (forall k, is_Some (encodingMap !! k) <-> k ∈ id <$> encodings sampleMarksCard)
    /\ (forall k fields, encodingMap !! k = Some fields ->
          fields = fieldsOf k (encodings sampleMarksCard) /\ fields <> []).
Proof.
  apply (getEncodingMap_active_card sampleVisualSpec sampleMarksCard).
  - simpl. lia.
  - reflexivity.
  - vm_compute. reflexivity.
Defined.

(** C6, as stated, fails: a marks card with an encoding whose id is
    [constructor] gives no map; the push on the inherited member throws. *)
Lemma getEncodingMap_inherited_id_throws :
  0 <= activeMarksSpecificationIndex constructorSpec
  /\ marksSpecifications constructorSpec
       !! Z.to_nat (activeMarksSpecificationIndex constructorSpec)
     = Some constructorCard
  /\ getEncodingMap constructorSpec = TypeError.
Proof.
  split; [cbn; lia|]. split; [reflexivity|]. vm_compute. reflexivity.
Qed.

(** The order of spec property 3: two entries for one channel come out in
    declaration order. *)
Example getEncodingMap_sample :
  getEncodingMap sampleVisualSpec
  = Ok (<["edge" := [F1; F3]]> (<["levels" := [F2]]> ∅)).
Proof. vm_compute. reflexivity. Qed.

(** ** Named rows *)

Section HostProperties.

Context {prim : Type} (ToString : prim -> string).

Implicit Types (row mark : gmap string (jsval prim)).
Implicit Types (rows allMarks : list (gmap string (jsval prim))).

Lemma assignCell_other row (name k : string) (cell : jsval prim) :
  name <> k -> assignCell row name cell !! k = row !! k.
Proof.
  intros Hne. unfold assignCell.
  destruct (String.eqb name "__proto__"); [destruct cell|];
    try reflexivity; apply lookup_insert_ne, Hne.
Qed.

Lemma namedRow_fold_other (cols : list Column) (cells : list (DataValue prim))
    row (k : string) :
  k ∉ fieldName <$> cols ->
  foldl (fun row col => assignCell row (fieldName col) (cellAt cells (index col)))
        row cols
    !! k = row !! k.
Proof.
  revert row. induction cols as [|col cols IH]; intros row Hk; [reflexivity|].
  rewrite fmap_cons, not_elem_of_cons in Hk. destruct Hk as [Hne Hk].
  cbn [foldl]. rewrite IH by exact Hk. apply assignCell_other. congruence.
Qed.

Lemma assignCell_plain row (name : string) (cell : jsval prim) :
  name <> "__proto__" -> assignCell row name cell = <[name := cell]> row.
Proof.
  intros Hne. unfold assignCell.
  destruct (String.eqb_spec name "__proto__"); [congruence|reflexivity].
Qed.

Lemma namedRow_fold_column (cols : list Column) (cells : list (DataValue prim))
    (col : Column) :
  forall row,
    NoDup (fieldName <$> cols) ->
    col ∈ cols ->
    fieldName col <> "__proto__" ->
    foldl (fun row col => assignCell row (fieldName col) (cellAt cells (index col)))
          row cols
      !! fieldName col = Some (cellAt cells (index col)).
Proof.
  induction cols as [|c cols IH]; intros row Hnodup Hin Hplain.
  - apply elem_of_nil in Hin as [].
  - rewrite fmap_cons in Hnodup. apply NoDup_cons in Hnodup.
    destruct Hnodup as [Hfresh Hnodup]. cbn [foldl].
    apply elem_of_cons in Hin. destruct Hin as [->|Hin].
    + rewrite namedRow_fold_other by exact Hfresh.
      rewrite assignCell_plain by exact Hplain. apply lookup_insert_eq.
    + apply IH; assumption.
Qed.

(** Within one page a row is numbered by its index plus one, unless a
    column of the page is itself called [$tupleId]. *)
Lemma namedRow_tupleId (cols : list Column) (i : nat) (cells : list (DataValue prim)) :
  "$tupleId" ∉ fieldName <$> cols ->
  namedRow cols i cells !! "$tupleId" = Some (VNum (Z.of_nat i + 1)).
Proof.
  intros Hk. unfold namedRow. rewrite namedRow_fold_other by exact Hk.
  apply lookup_singleton_eq.
Qed.

Lemma namedRowsFrom_lookup (cols : list Column) (cells : list (list (DataValue prim))) :
  forall (i k : nat),
    namedRowsFrom cols i cells !! k = namedRow cols (i + k) <$> cells !! k.
Proof.
  induction cells as [|c cells IH]; intros i k; [reflexivity|].
  destruct k as [|k]; cbn.
  - rewrite Nat.add_0_r. reflexivity.
  - rewrite IH. replace (S i + k)%nat with (i + S k)%nat by lia. reflexivity.
Qed.

Lemma length_convertToListOfNamedRows (page : DataTable prim) :
  length (convertToListOfNamedRows page) = length (data page).
Proof.
  unfold convertToListOfNamedRows. generalize 0%nat.
  induction (data page) as [|c cells IH]; intros i; [reflexivity|].
  cbn. rewrite IH. reflexivity.
Qed.

Lemma getSummaryDataTable_fold (pages : list (DataTable prim)) :
  forall rows,
    foldl (fun rows page => rows ++ convertToListOfNamedRows page) rows pages
    = rows ++ concat (convertToListOfNamedRows <$> pages).
Proof.
  induction pages as [|page pages IH]; intros rows; cbn.
  - rewrite app_nil_r. reflexivity.
  - rewrite IH, app_assoc. reflexivity.
Qed.

(** The rows come out in page order, then row order. *)
Lemma getSummaryDataTable_concat (pages : list (DataTable prim)) :
  getSummaryDataTable pages = concat (convertToListOfNamedRows <$> pages).
Proof. apply (getSummaryDataTable_fold pages []). Qed.

End HostProperties.

(** C1: on a two-page input the numbering restarts on the second page: the
    rows are concatenated in page order, yet both carry the Tuple ID 1, where
    the claim wants 1 and 2. *)
Theorem getSummaryDataTable_restarts_on_each_page :
  (fun row => getProp row "A") <$> getSummaryDataTable [firstPage; secondPage]
    = [VData (cell "1"); VData (cell "2")]
  /\ (fun row => getProp row "$tupleId") <$> getSummaryDataTable [firstPage; secondPage]
    = [VNum 1; VNum 1].
Proof. split; vm_compute; reflexivity. Qed.

(** ** The selection matcher *)

Section MatcherProperties.

Context {prim : Type} (ToString : prim -> string).

Implicit Types (row mark : gmap string (jsval prim)).
Implicit Types (rows allMarks : list (gmap string (jsval prim))).
Implicit Types (selectedMarkMap : gmap string (gmap string (jsval prim))).

Lemma keysDefined_cons (cols : list Column) row rows :
  keysDefined ToString cols (row :: rows) = true ->
  (exists key, rowKey ToString cols row = Ok key)
  /\ keysDefined ToString cols rows = true.
Proof.
  unfold keysDefined. cbn [forallb]. intros H.
  apply andb_prop in H. destruct H as [Hrow Hrows]. split; [|exact Hrows].
  destruct (rowKey ToString cols row) as [key|]; [eauto|discriminate].
Qed.

(** The first loop succeeds on rows that all have a key, and leaves in the
    lookup exactly the keys it started with and the keys of those rows. *)
Lemma selectedLoop_keys (cols : list Column) rows :
  forall selectedMarkMap,
    keysDefined ToString cols rows = true ->
    exists selectedMarkMap',
      selectedLoop ToString cols selectedMarkMap rows = Ok selectedMarkMap'
      /\ forall key, is_Some (selectedMarkMap' !! key) <->
           is_Some (selectedMarkMap !! key)
           \/ exists row, row ∈ rows /\ rowKey ToString cols row = Ok key.
Proof.
  induction rows as [|row rows IH]; intros M Hdef.
  - exists M. split; [reflexivity|]. intros key. split; [auto|].
    intros [H|(row & Hin & _)]; [exact H|]. apply elem_of_nil in Hin as [].
  - apply keysDefined_cons in Hdef. destruct Hdef as [[key0 Hkey0] Hdef].
    destruct (IH (<[key0 := row]> M) Hdef) as (M' & Hloop & Hkeys).
    exists M'. split.
    + cbn [selectedLoop]. rewrite Hkey0. exact Hloop.
    + intros key. rewrite Hkeys, lookup_insert_is_Some'. split.
      * intros [[Heq|HM]|(r & Hin & Hr)].
        -- subst key0. right. exists row. split; [apply list_elem_of_here|exact Hkey0].
        -- left. exact HM.
        -- right. exists r. split; [apply list_elem_of_further, Hin|exact Hr].
      * intros [HM|(r & Hin & Hr)]; [left; right; exact HM|].
        apply elem_of_cons in Hin. destruct Hin as [->|Hin].
        -- left. left. congruence.
        -- right. exists r. split; assumption.
Qed.

(** The second loop succeeds on rows that all have a key, and adds to the
    set the counter values of the rows whose key is in the lookup. *)
Lemma marksLoop_ids (cols : list Column) selectedMarkMap allMarks :
  forall (tupleId : Z) (ids : gset Z),
    keysDefined ToString cols allMarks = true ->
    exists ids' : gset Z,
      marksLoop ToString cols selectedMarkMap tupleId ids allMarks = Ok ids'
      /\ forall t, t ∈ ids' <->
           t ∈ ids
           \/ exists (k : nat) mark key,
                t = tupleId + Z.of_nat k /\ allMarks !! k = Some mark
                /\ rowKey ToString cols mark = Ok key
                /\ is_Some (selectedMarkMap !! key).
Proof.
  induction allMarks as [|mark allMarks IH]; intros tupleId ids Hdef.
  - exists ids. split; [reflexivity|]. intros t. split; [auto|].
    intros [H|(k & m & key & _ & Hk & _)]; [exact H|]. discriminate.
  - apply keysDefined_cons in Hdef. destruct Hdef as [[key0 Hkey0] Hdef].
    edestruct (IH (tupleId + 1)) as (ids' & Hloop & Hids); [exact Hdef|].
    exists ids'. split.
    + cbn [marksLoop]. rewrite Hkey0. exact Hloop.
    + intros t. rewrite Hids. clear Hids Hloop IH. split.
      * intros [Hin|(k & m & key & -> & Hk & Hkey & Hsel)].
        -- destruct (selectedMarkMap !! key0) as [sel|] eqn:Hsel; [|left; exact Hin].
           apply elem_of_union in Hin. destruct Hin as [Hin|Hin]; [|left; exact Hin].
           apply elem_of_singleton in Hin. subst t. right.
           exists 0%nat, mark, key0. rewrite Hsel.
           split; [lia|]. split; [reflexivity|]. split; [exact Hkey0|eauto].
        -- right. exists (S k), m, key.
           split; [lia|]. split; [exact Hk|]. split; assumption.
      * intros [Hin|(k & m & key & -> & Hk & Hkey & Hsel)].
        -- left. destruct (selectedMarkMap !! key0); [|exact Hin].
           apply elem_of_union_r, Hin.
        -- destruct k as [|k].
           ++ cbn in Hk. injection Hk as ->. left.
              rewrite Hkey0 in Hkey. injection Hkey as ->.
              destruct Hsel as [sel ->]. apply elem_of_union_l, elem_of_singleton.
              lia.
           ++ right. exists k, m, key.
              split; [lia|]. split; [exact Hk|]. split; assumption.
Qed.

Lemma string_app_assoc (a b c : string) :
  ((a ++ b) ++ c)%string = (a ++ b ++ c)%string.
Proof.
  induction a as [|ch a IH]; [reflexivity|].
  change (String ch ((a ++ b) ++ c) = String ch (a ++ b ++ c))%string.
  rewrite IH. reflexivity.
Qed.

Lemma string_app_empty_r (a : string) : (a ++ "")%string = a.
Proof.
  induction a as [|ch a IH]; [reflexivity|].
  change (String ch (a ++ "") = String ch a)%string.
  rewrite IH. reflexivity.
Qed.

Lemma keyLoop_compositeKey (cols : list Column) row :
  forall (values : list (DataValue prim)) (key : string),
    Forall2 (fun col d => row !! fieldName col = Some (VData d)) cols values ->
    keyLoop ToString row key cols
    = Ok (key ++ compositeKey ToString values)%string.
Proof.
  induction cols as [|col cols IH]; intros values key Hcells.
  - apply Forall2_nil_inv_l in Hcells. subst values. cbn.
    rewrite string_app_empty_r. reflexivity.
  - apply Forall2_cons_inv_l in Hcells.
    destruct Hcells as (d & values' & Hd & Hrest & ->).
    cbn [keyLoop]. unfold getProp. rewrite Hd. cbn [default valuePart].
    change (keyLoop ToString row (key ++ (ToString (value d) ++ NUL)) cols
            = Ok (key ++ (ToString (value d) ++ NUL ++ compositeKey ToString values')))%string.
    rewrite (IH values' _ Hrest), !string_app_assoc. reflexivity.
Qed.

(** On a row that holds a Data Value for every column, the key the loops
    compute is the composite key of those values. *)
Lemma rowKey_compositeKey (cols : list Column) row (values : list (DataValue prim)) :
  Forall2 (fun col d => row !! fieldName col = Some (VData d)) cols values ->
  rowKey ToString cols row = Ok (compositeKey ToString values).
Proof. intros H. apply (keyLoop_compositeKey cols row values "" H). Qed.

Lemma rowValues_held (cols : list Column) row :
  forallb (fun col => match row !! fieldName col with
                      | Some (VData _) => true
                      | _ => false
                      end) cols = true ->
  Forall2 (fun col d => row !! fieldName col = Some (VData d))
          cols (rowValues cols row).
Proof.
  induction cols as [|col cols IH]; intros Hheld; [constructor|].
  cbn [forallb] in Hheld. apply andb_prop in Hheld.
  destruct Hheld as [Hcol Hcols]. unfold rowValues. cbn [omap list_omap].
  destruct (row !! fieldName col) as [[ | |d| | ]|] eqn:Hlookup;
    try discriminate.
  cbn. constructor; [exact Hlookup|apply IH, Hcols].
Qed.

Lemma holdsCells_keys (cols : list Column) rows :
  holdsCells cols rows = true ->
  keysDefined ToString cols rows = true
  /\ forall row, row ∈ rows ->
       rowKey ToString cols row
       = Ok (compositeKey ToString (rowValues cols row)).
Proof.
  intros Hheld. unfold holdsCells in Hheld. rewrite forallb_forall in Hheld.
  assert (forall row, row ∈ rows ->
            rowKey ToString cols row
            = Ok (compositeKey ToString (rowValues cols row))) as Hkey.
  { intros row Hin. apply rowKey_compositeKey, rowValues_held, Hheld.
    apply list_elem_of_In, Hin. }
  split; [|exact Hkey].
  unfold keysDefined. apply forallb_forall. intros row Hin.
  rewrite Hkey by (apply list_elem_of_In, Hin). reflexivity.
Qed.

Lemma rowValues_cellValues row (cells : list (DataValue prim))
    (l : list Column) :
  (forall col, col ∈ l ->
     exists d, cells !! index col = Some d
               /\ row !! fieldName col = Some (VData d)) ->
  forallb (fun col => match row !! fieldName col with
                      | Some (VData _) => true
                      | _ => false
                      end) l = true
  /\ rowValues l row = cellValues l cells.
Proof.
  unfold rowValues, cellValues.
  induction l as [|col l IH]; intros Hcol; [split; reflexivity|].
  destruct (Hcol col (list_elem_of_here _ _)) as (d & Hd & Hrow).
  destruct IH as [IH1 IH2];
    [intros c Hc; apply Hcol, list_elem_of_further, Hc|].
  cbn [forallb omap list_omap]. rewrite Hrow, Hd. cbn.
  split; [exact IH1|]. f_equal. exact IH2.
Qed.

(** A named row built from a data row that is long enough holds, under
    the columns' names, the cells at the columns' indices. *)
Lemma namedRow_holds_cells (cols : list Column) (i : nat)
    (cells : list (DataValue prim)) :
  NoDup (fieldName <$> cols) ->
  "__proto__" ∉ fieldName <$> cols ->
  forallb (fun col => (index col <? length cells)%nat) cols = true ->
  forallb (fun col => match namedRow cols i cells !! fieldName col with
                      | Some (VData _) => true
                      | _ => false
                      end) cols = true
  /\ rowValues cols (namedRow cols i cells) = cellValues cols cells.
Proof.
  intros Hnodup Hplain Hrange. rewrite forallb_forall in Hrange.
  apply rowValues_cellValues. intros col Hin.
  assert (index col < length cells)%nat as Hlt
    by (apply Nat.ltb_lt, Hrange, list_elem_of_In, Hin).
  apply lookup_lt_is_Some in Hlt. destruct Hlt as [d Hd]. exists d.
  split; [exact Hd|]. unfold namedRow.
  rewrite (namedRow_fold_column cols cells col _ Hnodup Hin).
  - unfold cellAt. rewrite Hd. reflexivity.
  - intros Heq. apply Hplain. rewrite <- Heq.
    apply list_elem_of_fmap. exists col. auto.
Qed.

Lemma convertToListOfNamedRows_elem (table : DataTable prim) row :
  row ∈ convertToListOfNamedRows table
  <-> exists (j : nat) cells,
        data table !! j = Some cells
        /\ row = namedRow (columns table) j cells.
Proof.
  unfold convertToListOfNamedRows. rewrite list_elem_of_lookup. split.
  - intros [j Hj]. rewrite namedRowsFrom_lookup in Hj.
    destruct (data table !! j) as [cells|] eqn:Hcells; [|discriminate].
    cbn in Hj. injection Hj as <-. eauto.
  - intros (j & cells & Hcells & ->). exists j.
    rewrite namedRowsFrom_lookup, Hcells. reflexivity.
Qed.

Lemma cellsInRange_selected (table : DataTable prim) :
  NoDup (fieldName <$> columns table) ->
  "__proto__" ∉ fieldName <$> columns table ->
  cellsInRange table = true ->
  holdsCells (columns table) (convertToListOfNamedRows table) = true
  /\ forall (j : nat) cells,
       data table !! j = Some cells ->
       rowValues (columns table) (namedRow (columns table) j cells)
       = cellValues (columns table) cells.
Proof.
  intros Hnodup Hplain Hrange. unfold cellsInRange in Hrange.
  rewrite forallb_forall in Hrange. split.
  - unfold holdsCells. apply forallb_forall. intros row Hin.
    apply list_elem_of_In, convertToListOfNamedRows_elem in Hin.
    destruct Hin as (j & cells & Hcells & ->).
    apply namedRow_holds_cells; [exact Hnodup|exact Hplain|].
    apply Hrange, list_elem_of_In, list_elem_of_lookup. eauto.
  - intros j cells Hcells.
    apply namedRow_holds_cells; [exact Hnodup|exact Hplain|].
    apply Hrange, list_elem_of_In, list_elem_of_lookup. eauto.
Qed.

(** C2, as amended: for a selection whose first table has columns of
    distinct field names, none of them [__proto__], and a cell at every
    column's index in every data row, and for rows of [allMarks] that hold
    a Data Value under every column's field name, [findIdsOfMarks] returns
    exactly the set of the 1-based positions of the rows of [allMarks]
    whose composite key (the [.value] of each column's Data Value, in
    column order, each followed by NUL) equals the composite key of at
    least one data row of the selected table; all the rows that share such
    a key are in the set. *)
Theorem findIdsOfMarks_matching_positions allMarks
    (table : DataTable prim) (others : list (DataTable prim)) :
  NoDup (fieldName <$> columns table) ->
  "__proto__" ∉ fieldName <$> columns table ->
  cellsInRange table = true ->
  holdsCells (columns table) allMarks = true ->
  exists ids : gset Z,
    findIdsOfMarks ToString allMarks {| tables := table :: others |} = Ok ids
    /\ forall t, t ∈ ids <->
         exists (k : nat) mark (j : nat) cells,
           t = Z.of_nat k + 1
           /\ allMarks !! k = Some mark
           /\ data table !! j = Some cells
           /\ compositeKey ToString (rowValues (columns table) mark)
              = compositeKey ToString (cellValues (columns table) cells).
Proof.
  intros Hnodup Hplain Hrange Hheld.
  destruct (cellsInRange_selected table Hnodup Hplain Hrange) as [Hselheld Hvalues].
  destruct (holdsCells_keys _ _ Hselheld) as [Hsel Hselkey].
  destruct (holdsCells_keys _ _ Hheld) as [Hall Hallkey].
  destruct (selectedLoop_keys (columns table) _ ∅ Hsel) as (M & HM & Hkeys).
  destruct (marksLoop_ids (columns table) M allMarks 1 ∅ Hall) as (ids & Hids & Hmem).
  exists ids. split.
  - unfold findIdsOfMarks. cbn [tables]. rewrite HM. exact Hids.
  - intros t. rewrite Hmem. split.
    + intros [Hin|(k & mark & key & -> & Hk & Hkey & HinM)];
        [apply not_elem_of_empty in Hin as []|].
      apply Hkeys in HinM. destruct HinM as [HinM|(s & Hs & Hskey)].
      * rewrite lookup_empty in HinM. destruct HinM as [x Hx]. discriminate.
      * pose proof Hs as Hs'. apply convertToListOfNamedRows_elem in Hs'.
        destruct Hs' as (j & cells & Hcells & ->).
        exists k, mark, j, cells. split; [lia|]. split; [exact Hk|].
        split; [exact Hcells|].
        rewrite Hallkey in Hkey by (apply list_elem_of_lookup; eauto).
        rewrite Hselkey in Hskey by exact Hs.
        rewrite (Hvalues j cells Hcells) in Hskey. congruence.
    + intros (k & mark & j & cells & -> & Hk & Hcells & Heq).
      right. exists k, mark, (compositeKey ToString (rowValues (columns table) mark)).
      split; [lia|]. split; [exact Hk|].
      split; [apply Hallkey, list_elem_of_lookup; eauto|].
      apply Hkeys. right. exists (namedRow (columns table) j cells).
      assert (namedRow (columns table) j cells ∈ convertToListOfNamedRows table)
        as Hs by (apply convertToListOfNamedRows_elem; eauto).
      split; [exact Hs|].
      rewrite Hselkey by exact Hs. rewrite (Hvalues j cells Hcells), Heq.
      reflexivity.
Qed.


(** C8, as amended: a selection with several data tables is not rejected;
    the tables after the first are ignored, and the result is the one for
    the first table alone (a set of ids whenever the rows read have keys). *)
Theorem findIdsOfMarks_first_table_only allMarks
    (table : DataTable prim) (others : list (DataTable prim)) :
  findIdsOfMarks ToString allMarks {| tables := table :: others |}
  = findIdsOfMarks ToString allMarks {| tables := [table] |}
  /\ (keysDefined ToString (columns table) (convertToListOfNamedRows table) = true ->
      keysDefined ToString (columns table) allMarks = true ->
      exists ids : gset Z,
        findIdsOfMarks ToString allMarks {| tables := table :: others |} = Ok ids).
Proof.
  split; [reflexivity|]. intros Hsel Hall.
  destruct (selectedLoop_keys (columns table) _ ∅ Hsel) as (M & HM & _).
  destruct (marksLoop_ids (columns table) M allMarks 1 ∅ Hall) as (ids & Hids & _).
  exists ids. unfold findIdsOfMarks. cbn [tables]. rewrite HM. exact Hids.
Qed.

End MatcherProperties.

Lemma findIdsOfMarks_matching_positions_witness :
  exists ids : gset Z,
    findIdsOfMarks (fun s => s) (getSummaryDataTable [samplePage])
      {| tables := [selectedTable] |} = Ok ids
    /\ forall t, t ∈ ids <->
         exists (k : nat) mark (j : nat) cells,
           t = Z.of_nat k + 1
           /\ getSummaryDataTable [samplePage] !! k = Some mark
           /\ data selectedTable !! j = Some cells
           /\ compositeKey (fun s => s) (rowValues (columns selectedTable) mark)
              = compositeKey (fun s => s) (cellValues (columns selectedTable) cells).
Proof.
  apply (findIdsOfMarks_matching_positions (fun s => s)
           (getSummaryDataTable [samplePage]) selectedTable []).
  - cbn. apply NoDup_cons. split; [|apply NoDup_singleton].
    rewrite list_elem_of_singleton. discriminate.
  - cbn. rewrite !not_elem_of_cons. repeat split; try discriminate.
    apply not_elem_of_nil.
  - vm_compute. reflexivity.
  - vm_compute. reflexivity.
Defined.

(** Spec properties 6 and 7 on the code. *)
Example findIdsOfMarks_exact_match :
  findIdsOfMarks (fun s => s) (getSummaryDataTable [samplePage])
    {| tables := [selectedTable] |} = Ok {[ 2 ]}.
Proof. vm_compute. reflexivity. Qed.

Example findIdsOfMarks_duplicate_rows :
  findIdsOfMarks (fun s => s) (getSummaryDataTable [firstPage; firstPage])
    {| tables := [firstPage] |} = Ok ({[ 1 ]} ∪ {[ 2 ]}).
Proof. vm_compute. reflexivity. Qed.

(** C2, as stated, fails: for a row of [allMarks] without the cells of the
    selected columns no set is returned; reading [.value] of the missing
    cell throws. *)
Example findIdsOfMarks_bareMark_throws :
  findIdsOfMarks (fun s => s) [bareMark] {| tables := [selectedTable] |}
  = TypeError.
Proof. vm_compute. reflexivity. Qed.



(** C8, as stated, fails: a selection of two tables is answered, from the
    first table only (the second one selects row 1, which is not reported). *)
Lemma findIdsOfMarks_two_tables_not_rejected :
  (1 < length (tables {| tables := [selectedTable; otherTable] |}))%nat
  /\ findIdsOfMarks (fun s => s) (getSummaryDataTable [samplePage])
       {| tables := [selectedTable; otherTable] |} = Ok {[ 2 ]}
  /\ findIdsOfMarks (fun s => s) (getSummaryDataTable [samplePage])
       {| tables := [selectedTable; otherTable] |} <> TypeError.
Proof.
  split; [cbn; lia|]. split; [vm_compute; reflexivity|].
  vm_compute. discriminate.
Qed.

(** ** The data encoder *)

Section EncoderProperties.

Context {prim : Type}.

Implicit Types (row : gmap string (jsval prim)).
Implicit Types (rows : list (gmap string (jsval prim))).
Implicit Types (encodingMap : gmap string (list Field)).

Lemma pushFields_fold row (fields : list Field) :
  forall values : list (jsval prim),
    foldl (fun values field => values ++ [getProp row (name field)]) values fields
    = values ++ ((fun field => getProp row (name field)) <$> fields).
Proof.
  induction fields as [|f fields IH]; intros values; cbn.
  - rewrite app_nil_r. reflexivity.
  - rewrite IH, <- app_assoc. reflexivity.
Qed.

Lemma pushFields_fmap row (fields : list Field) :
  pushFields row fields = (fun field => getProp row (name field)) <$> fields.
Proof. apply (pushFields_fold row fields []). Qed.

(** What an encoded row holds under each property name: the channel's
    list when the name is a channel, else the initial [$tupleId]. *)
Lemma encodeRow_lookup encodingMap (tupleId : Z) row (k : string) :
  encodeRow encodingMap tupleId row !! k =
    match encodingMap !! k with
    | Some fields => Some (VArr (pushFields row fields))
    | None => ({[ "$tupleId" := VNum tupleId ]} : gmap string (jsval prim)) !! k
    end.
Proof.
  unfold encodeRow. revert k.
  apply (map_fold_weak_ind (fun (encodedRow : gmap string (jsval prim)) m =>
    forall k, encodedRow !! k =
      match m !! k with
      | Some fields => Some (VArr (pushFields row fields))
      | None => ({[ "$tupleId" := VNum tupleId ]} : gmap string (jsval prim)) !! k
      end)).
  - intros k. rewrite lookup_empty. reflexivity.
  - intros encName fields m encodedRow Hfresh IH k.
    destruct (decide (encName = k)) as [->|Hne].
    + rewrite !lookup_insert_eq. reflexivity.
    + rewrite !lookup_insert_ne by exact Hne. apply IH.
Qed.

Lemma encodeLoop_lookup encodingMap rows :
  forall (tupleId : Z) (i : nat),
    encodeLoop encodingMap tupleId rows !! i
    = encodeRow encodingMap (tupleId + Z.of_nat i) <$> rows !! i.
Proof.
  induction rows as [|row rows IH]; intros tupleId i; [reflexivity|].
  destruct i as [|i]; cbn.
  - rewrite Z.add_0_r. reflexivity.
  - rewrite IH. replace (tupleId + 1 + Z.of_nat i) with (tupleId + Z.pos (Pos.of_succ_nat i)) by lia.
    reflexivity.
Qed.

Lemma length_encodeLoop encodingMap rows :
  forall tupleId : Z, length (encodeLoop encodingMap tupleId rows) = length rows.
Proof.
  induction rows as [|row rows IH]; intros tupleId; [reflexivity|].
  cbn. rewrite IH. reflexivity.
Qed.

Lemma encodeData_lookup encodingMap rows (i : nat) row :
  rows !! i = Some row ->
  encodeData encodingMap rows !! i
  = Some (encodeRow encodingMap (Z.of_nat i + 1) row).
Proof.
  intros Hrow. unfold encodeData. rewrite encodeLoop_lookup, Hrow. cbn.
  rewrite Z.add_comm. reflexivity.
Qed.

(** C3, as amended: the encoder emits one encoded row per input row, in
    input order, and the i-th encoded row carries the Tuple ID i of its
    1-based position (its own counter, not a value read from the input
    row), unless a channel is itself called [$tupleId]. *)
Theorem encodeData_positional_tupleId encodingMap rows :
  length (encodeData encodingMap rows) = length rows
  /\ forall (i : nat) row,
       rows !! i = Some row ->
       encodeData encodingMap rows !! i
         = Some (encodeRow encodingMap (Z.of_nat i + 1) row)
       /\ (encodingMap !! "$tupleId" = None ->
           encodeRow encodingMap (Z.of_nat i + 1) row !! "$tupleId"
             = Some (VNum (Z.of_nat i + 1))).
Proof.
  split; [apply length_encodeLoop|]. intros i row Hrow. split.
  - apply encodeData_lookup, Hrow.
  - intros Hfree. rewrite encodeRow_lookup, Hfree. apply lookup_singleton_eq.
Qed.

(** C4, as amended: for a row of the input and a channel of the encoding
    map, the encoded row maps the channel to a list with one entry per field
    of the channel, the j-th being the row's value for the j-th field's
    name, and [undefined] when the row has no property of that name, the
    name is not that of a member inherited from [Object.prototype], and the
    row's prototype has not been replaced. *)
Theorem encodeData_channel_values encodingMap rows (i : nat) row
    (encName : string) (fields : list Field) :
  rows !! i = Some row ->
  encodingMap !! encName = Some fields ->
  exists encodedRow (values : list (jsval prim)),
    encodeData encodingMap rows !! i = Some encodedRow
    /\ encodedRow !! encName = Some (VArr values)
    /\ length values = length fields
    /\ forall (j : nat) f,
         fields !! j = Some f ->
         (forall v, row !! name f = Some v -> values !! j = Some v)
         /\ (row !! name f = None -> inherited (name f) = false ->
             row !! "__proto__" = None ->
             values !! j = Some VUndef).
Proof.
  intros Hrow Hchan.
  exists (encodeRow encodingMap (Z.of_nat i + 1) row), (pushFields row fields).
  split; [apply encodeData_lookup, Hrow|].
  split; [rewrite encodeRow_lookup, Hchan; reflexivity|].
  rewrite pushFields_fmap. split; [apply length_fmap|].
  intros j f Hf. rewrite list_lookup_fmap, Hf. cbn. unfold getProp. split.
  - intros v Hv. rewrite Hv. reflexivity.
  - intros Hmissing Hplain _. rewrite Hmissing, Hplain. reflexivity.
Qed.

(** The encoded data of [getDataAndVisualSpec] is the encoding loop run
    on the summary rows with the worksheet's encoding map. *)
Lemma getDataAndVisualSpec_encodedData (worksheet : Worksheet prim)
    (results : DataAndVisualSpec prim) :
  getDataAndVisualSpec worksheet = Ok results ->
  getEncodingMap (visualSpecification worksheet) = Ok (encodingMap results)
  /\ originalData results = getSummaryDataTable (summaryData worksheet)
  /\ encodedData results
     = encodeData (encodingMap results) (originalData results).
Proof.
  unfold getDataAndVisualSpec.
  destruct (getEncodingMap (visualSpecification worksheet)) as [m|];
    [|discriminate].
  cbn. intros [= <-]. cbn. auto.
Qed.

(** On a single page without a column called [$tupleId], the position
    the encoder counts is the Tuple ID the row already carries. *)
Lemma encodeData_single_page_tupleId encodingMap (page : DataTable prim)
    (i : nat) row :
  "$tupleId" ∉ fieldName <$> columns page ->
  getSummaryDataTable [page] !! i = Some row ->
  row !! "$tupleId" = Some (VNum (Z.of_nat i + 1)).
Proof.
  intros Hcols. rewrite getSummaryDataTable_concat. cbn. rewrite app_nil_r.
  unfold convertToListOfNamedRows. rewrite namedRowsFrom_lookup.
  destruct (data page !! i) as [cells|]; [|discriminate].
  cbn. intros [= <-]. apply namedRow_tupleId, Hcols.
Qed.

End EncoderProperties.

Lemma encodeData_channel_values_witness :
  exists encodedRow (values : list (jsval string)),
    encodeData sampleEncodingMap (getSummaryDataTable [samplePage]) !! 1%nat
      = Some encodedRow
    /\ encodedRow !! "edge" = Some (VArr values)
    /\ length values = length [ {| name := "A" |}; {| name := "Missing" |} ]
    /\ forall (j : nat) f,
         [ {| name := "A" |}; {| name := "Missing" |} ] !! j = Some f ->
         (forall v, namedRow [colA; colB] 1 [cell "2"; cell "y"] !! name f = Some v ->
            values !! j = Some v)
         /\ (namedRow [colA; colB] 1 [cell "2"; cell "y"] !! name f = None ->
             inherited (name f) = false ->
             namedRow [colA; colB] 1 [cell "2"; cell "y"] !! "__proto__" = None ->
             values !! j = Some VUndef).
Proof.
  apply (encodeData_channel_values sampleEncodingMap
           (getSummaryDataTable [samplePage]) 1
           (namedRow [colA; colB] 1 [cell "2"; cell "y"]) "edge"
           [ {| name := "A" |}; {| name := "Missing" |} ]).
  - reflexivity.
  - vm_compute. reflexivity.
Defined.

(** C4, as stated, fails: the rows of the sample page have no property
    called [constructor], yet the entry for a field of that name is not
    [undefined] but the member the row inherits. *)
Lemma encodeData_inherited_field_not_undefined :
  (fun row => row !! "constructor") <$> getSummaryDataTable [samplePage]
  = [None; None]
  /\ (fun encodedRow => getProp encodedRow "edge")
       <$> encodeData constructorEncodingMap (getSummaryDataTable [samplePage])
     = [ VArr [VData (cell "1"); VInherited "constructor"];
         VArr [VData (cell "2"); VInherited "constructor"] ].
Proof. split; vm_compute; reflexivity. Qed.

(** The encoded second row of the sample page: the missing field reads as
    [undefined]. *)
Example encodeData_sample_edge :
  (fun encodedRow => getProp encodedRow "edge")
    <$> encodeData sampleEncodingMap (getSummaryDataTable [samplePage])
  = [ VArr [VData (cell "1"); VUndef]; VArr [VData (cell "2"); VUndef] ].
Proof. vm_compute. reflexivity. Qed.

(** C3, as stated, fails: on the two-page input the second input row
    carries the Tuple ID 1 and the second encoded row the Tuple ID 2. *)
Lemma encodeData_tupleId_differs_from_input :
  (fun row => getProp row "$tupleId")
    <$> getSummaryDataTable [firstPage; secondPage]
  = [VNum 1; VNum 1]
  /\ (fun encodedRow => getProp encodedRow "$tupleId")
       <$> encodeData sampleEncodingMap (getSummaryDataTable [firstPage; secondPage])
     = [VNum 1; VNum 2].
Proof. split; vm_compute; reflexivity. Qed.

(** ** Fog colours *)

Lemma blend_factors_differ :
  Fog.DarkBgFogBlendFactor <> Fog.DefaultFogBlendFactor.
Proof.
  intros H.
  apply (f_equal (fun x => PrimFloat.eqb x Fog.DefaultFogBlendFactor)) in H.
  vm_compute in H. discriminate.
Qed.

(** C9: the blend factor is 0.2750000059604645 exactly when the three
    channels are at most 75, and 0.1850000023841858 exactly when one of
    them exceeds 75; all channels at 75 give the dark factor, a channel at
    76 gives the default one. *)
Theorem getFogBlendFactor_threshold (color : Fog.Rgb) :
  (Fog.getFogBlendFactor color = 0.2750000059604645%float
     <-> Fog.r color <= 75 /\ Fog.g color <= 75 /\ Fog.b color <= 75)
  /\ (Fog.getFogBlendFactor color = 0.1850000023841858%float
     <-> 75 < Fog.r color \/ 75 < Fog.g color \/ 75 < Fog.b color)
  /\ Fog.getFogBlendFactor {| Fog.r := 75; Fog.g := 75; Fog.b := 75 |}
     = 0.2750000059604645%float
  /\ (Fog.r color = 76 \/ Fog.g color = 76 \/ Fog.b color = 76 ->
      Fog.getFogBlendFactor color = 0.1850000023841858%float).
Proof.
  pose proof blend_factors_differ as Hne.
  change 0.2750000059604645%float with Fog.DarkBgFogBlendFactor.
  change 0.1850000023841858%float with Fog.DefaultFogBlendFactor.
  unfold Fog.getFogBlendFactor, Fog.DarkBgThreshold.
  destruct (Z.leb_spec (Fog.r color) 75) as [Hr|Hr];
    destruct (Z.leb_spec (Fog.g color) 75) as [Hg|Hg];
    destruct (Z.leb_spec (Fog.b color) 75) as [Hb|Hb]; cbn [andb];
    (split; [split; [intros H; try lia; congruence | intros H; try reflexivity; lia]|]);
    (split; [split; [intros H; try lia; congruence | intros H; try reflexivity; lia]|]);
    (split; [reflexivity|]); intros H; try reflexivity; lia.
Qed.

(** C10, as amended: the background is replaced by (245, 245, 245) when its
    three channels are all at least 245, and is used as it is otherwise;
    each fogged channel is the unsigned truncation of (1 - blendFactor)
    times the channel so obtained.  The white background is thus blended
    as (245, 245, 245). *)
Theorem computeFoggedBackgroundColor_close_to_white (color : Fog.Rgb)
    (fogBlendFactor : float) :
  (245 <= Fog.r color /\ 245 <= Fog.g color /\ 245 <= Fog.b color ->
   Fog.computeFoggedBackgroundColor color fogBlendFactor
   = {| Fog.foggedBackgroundRed := Fog.fogChannel fogBlendFactor 245;
        Fog.foggedBackgroundGreen := Fog.fogChannel fogBlendFactor 245;
        Fog.foggedBackgroundBlue := Fog.fogChannel fogBlendFactor 245 |})
  /\ (Fog.r color < 245 \/ Fog.g color < 245 \/ Fog.b color < 245 ->
      Fog.computeFoggedBackgroundColor color fogBlendFactor
      = {| Fog.foggedBackgroundRed := Fog.fogChannel fogBlendFactor (Fog.r color);
           Fog.foggedBackgroundGreen := Fog.fogChannel fogBlendFactor (Fog.g color);
           Fog.foggedBackgroundBlue := Fog.fogChannel fogBlendFactor (Fog.b color) |})
  /\ Fog.computeFoggedBackgroundColor Fog.backgroundColor fogBlendFactor
     = Fog.computeFoggedBackgroundColor
         {| Fog.r := 245; Fog.g := 245; Fog.b := 245 |} fogBlendFactor.
Proof.
  unfold Fog.computeFoggedBackgroundColor, Fog.CloseToWhite.
  split; [|split; [|reflexivity]].
  - intros (Hr & Hg & Hb).
    apply Z.geb_le in Hr, Hg, Hb. rewrite Hr, Hg, Hb. reflexivity.
  - intros H.
    destruct (Z.geb_spec (Fog.r color) 245) as [Hr|Hr];
      destruct (Z.geb_spec (Fog.g color) 245) as [Hg|Hg];
      destruct (Z.geb_spec (Fog.b color) 245) as [Hb|Hb];
      cbn [andb]; try reflexivity; lia.
Qed.

(** C10, as stated, fails: a red channel of 255 beside two dark channels is
    blended as 255 (giving 207), not as 245 (which would give 199). *)
Lemma computeFoggedBackgroundColor_red_not_clamped :
  Fog.foggedBackgroundRed
    (Fog.computeFoggedBackgroundColor pureRed Fog.fogBlendFactor) = 207
  /\ Fog.fogChannel Fog.fogBlendFactor (Fog.r (clampEachChannel pureRed)) = 199
  /\ Fog.foggedBackgroundRed
       (Fog.computeFoggedBackgroundColor pureRed Fog.fogBlendFactor)
     <> Fog.fogChannel Fog.fogBlendFactor (Fog.r (clampEachChannel pureRed)).
Proof.
  split; [vm_compute; reflexivity|]. split; [vm_compute; reflexivity|].
  vm_compute. discriminate.
Qed.

(** The process-wide constants. *)
Example fog_constants :
  Fog.fogBlendFactor = Fog.DefaultFogBlendFactor
  /\ Fog.foggedBackground
     = {| Fog.foggedBackgroundRed := 199;
          Fog.foggedBackgroundGreen := 199;
          Fog.foggedBackgroundBlue := 199 |}.
Proof. split; vm_compute; reflexivity. Qed.

(** * Further properties of the code *)

(** ** The encoding map, continued *)

(** As long as no own key is the name of an inherited member, the loop
    throws exactly when it meets an id that is one. *)
Lemma encodingLoop_throws_iff (es : list Encoding) :
  forall m : gmap string (list Field),
    (forall k, is_Some (m !! k) -> inherited k = false) ->
    encodingLoop m es = TypeError
    <-> exists e, e ∈ es /\ inherited (id e) = true.
Proof.
  induction es as [|e es IH]; intros m Hkeys.
  - cbn. split; [discriminate|]. intros (e & Hin & _).
    apply elem_of_nil in Hin as [].
  - cbn [encodingLoop]. destruct (inherited (id e)) eqn:He.
    + rewrite addEncoding_cases, He.
      destruct (m !! id e) as [fields|] eqn:Hm.
      * assert (inherited (id e) = false) by (apply Hkeys; eauto). congruence.
      * cbn. split; [|reflexivity]. intros _. exists e.
        split; [apply list_elem_of_here|exact He].
    + destruct (addEncoding_plain m e He) as [m1 Hm1]. rewrite Hm1. cbn.
      rewrite IH.
      * split.
        -- intros (e' & Hin & He'). exists e'.
           split; [apply list_elem_of_further, Hin|exact He'].
        -- intros (e' & Hin & He'). apply elem_of_cons in Hin.
           destruct Hin as [->|Hin]; [congruence|eauto].
      * intros k. rewrite (addEncoding_lookup m m1 e k Hm1).
        case_decide as Hk; [intros _; congruence|apply Hkeys].
Qed.

(** X1: [getEncodingMap] throws exactly when the active index is not
    negative and either lies beyond the last marks specification or selects
    a marks card with an encoding whose id is the name of a member
    inherited from [Object.prototype]. *)
Theorem getEncodingMap_throws_iff (visualSpec : VisualSpecification) :
  getEncodingMap visualSpec = TypeError
  <-> 0 <= activeMarksSpecificationIndex visualSpec
      /\ ((length (marksSpecifications visualSpec)
           <= Z.to_nat (activeMarksSpecificationIndex visualSpec))%nat
          \/ exists marksCard e,
               marksSpecifications visualSpec
                 !! Z.to_nat (activeMarksSpecificationIndex visualSpec)
               = Some marksCard
               /\ e ∈ encodings marksCard
               /\ inherited (id e) = true).
Proof.
  unfold getEncodingMap.
  destruct (Z.ltb_spec (activeMarksSpecificationIndex visualSpec) 0) as [Hneg|Hpos].
  - split; [discriminate|]. intros [H _]. lia.
  - destruct (marksSpecifications visualSpec
                !! Z.to_nat (activeMarksSpecificationIndex visualSpec))
      as [marksCard|] eqn:Hcard.
    + rewrite encodingLoop_throws_iff
        by (intros k [x Hx]; rewrite lookup_empty in Hx; discriminate).
      split.
      * intros (e & Hin & He). split; [exact Hpos|]. right.
        exists marksCard, e. auto.
      * intros [_ [Hlen|(card & e & [= <-] & Hin & He)]]; [|eauto].
        apply lookup_ge_None_2 in Hlen. congruence.
    + split; [|reflexivity]. intros _. split; [exact Hpos|]. left.
      apply lookup_ge_None_1 in Hcard. exact Hcard.
Qed.

Lemma fieldCount_insert (m : gmap string (list Field)) (k : string)
    (fields : list Field) :
  m !! k = None ->
  fieldCount (<[k := fields]> m) = (length fields + fieldCount m)%nat.
Proof.
  intros Hfresh. unfold fieldCount.
  apply (map_fold_insert_L (fun _ (fs : list Field) n => (length fs + n)%nat));
    [|exact Hfresh].
  intros. lia.
Qed.

Lemma fieldCount_addEncoding (m m' : gmap string (list Field)) (e : Encoding) :
  addEncoding m e = Ok m' -> fieldCount m' = S (fieldCount m).
Proof.
  rewrite addEncoding_cases. destruct (m !! id e) as [fields|] eqn:Hm.
  - intros [= <-].
    rewrite <- (insert_delete_id m (id e) fields Hm) at 2.
    rewrite <- insert_delete_eq.
    rewrite !fieldCount_insert by apply lookup_delete_eq.
    rewrite length_app. cbn. lia.
  - destruct (inherited (id e)); [discriminate|]. intros [= <-].
    rewrite fieldCount_insert by exact Hm. reflexivity.
Qed.

Lemma fieldCount_encodingLoop (es : list Encoding) :
  forall m m' : gmap string (list Field),
    encodingLoop m es = Ok m' ->
    fieldCount m' = (length es + fieldCount m)%nat.
Proof.
  induction es as [|e es IH]; intros m m'.
  - cbn. intros [= <-]. reflexivity.
  - cbn [encodingLoop].
    destruct (addEncoding m e) as [m1|] eqn:Hm1; [|discriminate].
    cbn. intros Hloop. rewrite (IH _ _ Hloop), (fieldCount_addEncoding _ _ _ Hm1).
    cbn. lia.
Qed.

(** X2: the encoding map of an active marks card holds as many fields, over
    all its channels, as the card has encoding entries: none is dropped and
    none is entered twice. *)
Theorem getEncodingMap_field_count (visualSpec : VisualSpecification)
    (marksCard : MarksSpecification) (encodingMap : gmap string (list Field)) :
  0 <= activeMarksSpecificationIndex visualSpec ->
  marksSpecifications visualSpec
    !! Z.to_nat (activeMarksSpecificationIndex visualSpec) = Some marksCard ->
  getEncodingMap visualSpec = Ok encodingMap ->
  fieldCount encodingMap = length (encodings marksCard).
Proof.
  intros Hidx Hcard. unfold getEncodingMap.
  apply Z.ltb_ge in Hidx. rewrite Hidx, Hcard. intros Hloop.
  rewrite (fieldCount_encodingLoop _ _ _ Hloop).
  unfold fieldCount. rewrite map_fold_empty. lia.
Qed.

Lemma getEncodingMap_field_count_witness :
  fieldCount (<["edge" := [F1; F3]]> (<["levels" := [F2]]> ∅))
  = length (encodings sampleMarksCard).
Proof.
  apply (getEncodingMap_field_count sampleVisualSpec sampleMarksCard).
  - simpl. lia.
  - reflexivity.
  - vm_compute. reflexivity.
Defined.

(** ** Named rows, continued *)

Section NamedRowProperties.

Context {prim : Type}.

Implicit Types (row : gmap string (jsval prim)).
Implicit Types (cells : list (DataValue prim)).

Lemma namedRow_fold_dom (cols : list Column) cells :
  forall row,
    "__proto__" ∉ fieldName <$> cols ->
    dom (foldl (fun row col => assignCell row (fieldName col) (cellAt cells (index col)))
               row cols)
    = dom row ∪ list_to_set (fieldName <$> cols).
Proof.
  induction cols as [|c cols IH]; intros row Hplain; cbn [foldl].
  - cbn. rewrite (right_id_L ∅ (∪)). reflexivity.
  - rewrite fmap_cons, not_elem_of_cons in Hplain. destruct Hplain as [Hc Hplain].
    rewrite IH by exact Hplain.
    rewrite assignCell_plain by congruence.
    rewrite dom_insert_L, fmap_cons. cbn.
    rewrite (comm_L (∪) {[fieldName c]} (dom row)), (assoc_L (∪)).
    reflexivity.
Qed.

(** X3: on a page whose columns have distinct field names, none of them
    [__proto__], the k-th named row holds, under each column's field name,
    the cell of the k-th data row at the column's index, and [undefined]
    when that data row is too short for the index: a short row is no
    error. *)
Theorem convertToListOfNamedRows_cell (page : DataTable prim) (k : nat) cells
    (col : Column) :
  NoDup (fieldName <$> columns page) ->
  "__proto__" ∉ fieldName <$> columns page ->
  data page !! k = Some cells ->
  col ∈ columns page ->
  exists row,
    convertToListOfNamedRows page !! k = Some row
    /\ (forall d, cells !! index col = Some d ->
          row !! fieldName col = Some (VData d))
    /\ ((length cells <= index col)%nat ->
          row !! fieldName col = Some VUndef).
Proof.
  intros Hnodup Hplain Hcells Hcol. exists (namedRow (columns page) k cells).
  split.
  - unfold convertToListOfNamedRows. rewrite namedRowsFrom_lookup, Hcells.
    reflexivity.
  - unfold namedRow.
    rewrite (namedRow_fold_column (columns page) cells col _ Hnodup Hcol).
    + unfold cellAt. split.
      * intros d Hd. rewrite Hd. reflexivity.
      * intros Hshort. apply lookup_ge_None_2 in Hshort. rewrite Hshort.
        reflexivity.
    + intros Heq. apply Hplain. rewrite <- Heq.
      apply list_elem_of_fmap. exists col. auto.
Qed.

(** X4: on a page without a column called [__proto__], the own properties
    of every named row are [$tupleId] and the field names of the page's
    columns, and nothing else. *)
Theorem convertToListOfNamedRows_dom (page : DataTable prim) (k : nat) row :
  "__proto__" ∉ fieldName <$> columns page ->
  convertToListOfNamedRows page !! k = Some row ->
  dom row = {[ "$tupleId" ]} ∪ list_to_set (fieldName <$> columns page).
Proof.
  intros Hplain. unfold convertToListOfNamedRows. rewrite namedRowsFrom_lookup.
  destruct (data page !! k) as [cells|]; [|discriminate].
  cbn. intros [= <-]. unfold namedRow.
  rewrite namedRow_fold_dom by exact Hplain. rewrite dom_singleton_L. reflexivity.
Qed.

Lemma length_getSummaryDataTable (pages : list (DataTable prim)) :
  length (getSummaryDataTable pages) = rowCount pages.
Proof.
  rewrite getSummaryDataTable_concat. unfold rowCount.
  induction pages as [|page pages IH]; [reflexivity|].
  cbn. rewrite length_app, IH, length_convertToListOfNamedRows. reflexivity.
Qed.

Lemma getSummaryDataTable_app (before after : list (DataTable prim)) :
  getSummaryDataTable (before ++ after)
  = getSummaryDataTable before ++ getSummaryDataTable after.
Proof.
  rewrite !getSummaryDataTable_concat, fmap_app, concat_app. reflexivity.
Qed.

(** X5: the summary rows number as many as the data rows of all the pages,
    and the k-th data row of a page sits after all the rows of the pages
    before it, as the named row built with the page's own columns and the
    row's index within the page. *)
Theorem getSummaryDataTable_row_at (before after : list (DataTable prim))
    (page : DataTable prim) (k : nat) cells :
  data page !! k = Some cells ->
  length (getSummaryDataTable (before ++ page :: after))
  = (rowCount before + length (data page) + rowCount after)%nat
  /\ getSummaryDataTable (before ++ page :: after) !! (rowCount before + k)%nat
     = Some (namedRow (columns page) k cells).
Proof.
  intros Hcells. split.
  - rewrite length_getSummaryDataTable. unfold rowCount.
    rewrite sum_list_with_app. cbn. lia.
  - rewrite getSummaryDataTable_app.
    rewrite lookup_app_r by (rewrite length_getSummaryDataTable; lia).
    rewrite length_getSummaryDataTable.
    replace (rowCount before + k - rowCount before)%nat with k by lia.
    change (page :: after) with ([page] ++ after).
    rewrite getSummaryDataTable_app. rewrite lookup_app_l.
    + rewrite getSummaryDataTable_concat. cbn. rewrite app_nil_r.
      unfold convertToListOfNamedRows.
      rewrite namedRowsFrom_lookup, Hcells. reflexivity.
    + rewrite length_getSummaryDataTable. unfold rowCount. cbn.
      apply lookup_lt_Some in Hcells. lia.
Qed.

End NamedRowProperties.

Lemma convertToListOfNamedRows_cell_witness :
  exists row,
    convertToListOfNamedRows samplePage !! 1%nat = Some row
    /\ (forall d, [cell "2"; cell "y"] !! index colB = Some d ->
          row !! fieldName colB = Some (VData d))
    /\ ((length [cell "2"; cell "y"] <= index colB)%nat ->
          row !! fieldName colB = Some VUndef).
Proof.
  apply (convertToListOfNamedRows_cell samplePage 1 [cell "2"; cell "y"] colB).
  - cbn. apply NoDup_cons. split; [|apply NoDup_singleton].
    rewrite list_elem_of_singleton. discriminate.
  - cbn. rewrite !not_elem_of_cons. repeat split; try discriminate.
    apply not_elem_of_nil.
  - reflexivity.
  - apply list_elem_of_further, list_elem_of_here.
Defined.

Lemma convertToListOfNamedRows_dom_witness :
  dom (namedRow [colA; colB] 1 [cell "2"; cell "y"])
  = {[ "$tupleId" ]} ∪ list_to_set (fieldName <$> columns samplePage).
Proof.
  apply (convertToListOfNamedRows_dom samplePage 1).
  - cbn. rewrite !not_elem_of_cons. repeat split; try discriminate.
    apply not_elem_of_nil.
  - reflexivity.
Defined.

Lemma getSummaryDataTable_row_at_witness :
  length (getSummaryDataTable ([firstPage] ++ secondPage :: []))
  = (rowCount [firstPage] + length (data secondPage)
     + rowCount ([] : list (DataTable string)))%nat
  /\ getSummaryDataTable ([firstPage] ++ secondPage :: [])
       !! (rowCount [firstPage] + 0)%nat
     = Some (namedRow (columns secondPage) 0 [cell "2"; cell "y"]).
Proof.
  apply (getSummaryDataTable_row_at [firstPage] [] secondPage 0
           [cell "2"; cell "y"]).
  reflexivity.
Defined.

(** ** The selection matcher, continued *)

Section MatcherErrors.

Context {prim : Type} (ToString : prim -> string).

Implicit Types (row mark : gmap string (jsval prim)).
Implicit Types (rows allMarks : list (gmap string (jsval prim))).
Implicit Types (selectedMarkMap : gmap string (gmap string (jsval prim))).

Lemma valuePart_throws_iff (v : jsval prim) :
  valuePart ToString v = TypeError <-> v = VUndef.
Proof. destruct v; cbn; split; (reflexivity || discriminate). Qed.

Lemma keyLoop_throws_iff (cols : list Column) row :
  forall key : string,
    keyLoop ToString row key cols = TypeError
    <-> exists col, col ∈ cols /\ getProp row (fieldName col) = VUndef.
Proof.
  induction cols as [|c cols IH]; intros key.
  - cbn. split; [discriminate|]. intros (col & Hin & _).
    apply elem_of_nil in Hin as [].
  - cbn [keyLoop].
    destruct (valuePart ToString (getProp row (fieldName c))) as [part|] eqn:Hpart.
    + cbn. rewrite IH. split.
      * intros (col & Hin & Hcol). exists col.
        split; [apply list_elem_of_further, Hin|exact Hcol].
      * intros (col & Hin & Hcol). apply elem_of_cons in Hin.
        destruct Hin as [->|Hin]; [|exists col; auto].
        apply valuePart_throws_iff in Hcol. congruence.
    + cbn. split; [|reflexivity]. intros _. exists c.
      split; [apply list_elem_of_here|apply valuePart_throws_iff, Hpart].
Qed.

Lemma getProp_undefined_iff row (k : string) :
  getProp row k = VUndef
  <-> row !! k = Some VUndef \/ (row !! k = None /\ inherited k = false).
Proof.
  unfold getProp. destruct (row !! k) as [v|].
  - split; [intros ->; auto|]. intros [[= ->]|[[=] _]]. reflexivity.
  - destruct (inherited k); split; try discriminate; auto.
    intros [[=]|[_ [=]]].
Qed.

(** X6: for a row whose prototype has not been replaced, computing the key
    throws exactly when, for some column, the row's own property of that
    field name is [undefined], or the row has no such property and the
    name is not that of an inherited member.  A column under which the row
    holds a number or an array, or reads an inherited member, contributes
    the text [undefined] and the separator. *)
Theorem rowKey_throws_iff (cols : list Column) row :
  row !! "__proto__" = None ->
  (rowKey ToString cols row = TypeError
   <-> exists col,
         col ∈ cols
         /\ (row !! fieldName col = Some VUndef
             \/ (row !! fieldName col = None
                 /\ inherited (fieldName col) = false)))
  /\ (forall col,
        (exists n, row !! fieldName col = Some (VNum n))
        \/ (exists l, row !! fieldName col = Some (VArr l))
        \/ (row !! fieldName col = None /\ inherited (fieldName col) = true) ->
        rowKey ToString [col] row = Ok ("undefined" ++ NUL)%string).
Proof.
  intros _. split.
  - unfold rowKey. rewrite keyLoop_throws_iff. split.
    + intros (col & Hin & Hcol). exists col. split; [exact Hin|].
      apply getProp_undefined_iff, Hcol.
    + intros (col & Hin & Hcol). exists col. split; [exact Hin|].
      apply getProp_undefined_iff, Hcol.
  - intros col Hcol. unfold rowKey. cbn [keyLoop]. unfold getProp.
    destruct Hcol as [[n ->]|[[l ->]|[-> ->]]]; reflexivity.
Qed.

Lemma selectedLoop_throws (cols : list Column) rows :
  forall selectedMarkMap,
    keysDefined ToString cols rows = false ->
    selectedLoop ToString cols selectedMarkMap rows = TypeError.
Proof.
  induction rows as [|row rows IH]; intros M Hdef; [discriminate|].
  unfold keysDefined in Hdef. cbn [forallb] in Hdef. cbn [selectedLoop].
  destruct (rowKey ToString cols row) as [key|]; [|reflexivity].
  cbn in Hdef |- *. apply IH, Hdef.
Qed.

Lemma marksLoop_throws (cols : list Column) selectedMarkMap allMarks :
  forall (tupleId : Z) (ids : gset Z),
    keysDefined ToString cols allMarks = false ->
    marksLoop ToString cols selectedMarkMap tupleId ids allMarks = TypeError.
Proof.
  induction allMarks as [|mark allMarks IH]; intros tupleId ids Hdef;
    [discriminate|].
  unfold keysDefined in Hdef. cbn [forallb] in Hdef. cbn [marksLoop].
  destruct (rowKey ToString cols mark) as [key|]; [|reflexivity].
  cbn in Hdef |- *. apply IH, Hdef.
Qed.

Lemma findIdsOfMarks_throws_keys allMarks (selectedMarks : MarksCollection prim) :
  findIdsOfMarks ToString allMarks selectedMarks = TypeError
  <-> exists table others,
        tables selectedMarks = table :: others
        /\ (keysDefined ToString (columns table) (convertToListOfNamedRows table)
              = false
            \/ keysDefined ToString (columns table) allMarks = false).
Proof.
  unfold findIdsOfMarks.
  destruct (tables selectedMarks) as [|table others].
  - split; [discriminate|]. intros (t & o & Heq & _). discriminate.
  - destruct (keysDefined ToString (columns table) (convertToListOfNamedRows table))
      eqn:Hsel.
    + destruct (selectedLoop_keys ToString (columns table) _ ∅ Hsel)
        as (M & HM & _).
      rewrite HM. cbn.
      destruct (keysDefined ToString (columns table) allMarks) eqn:Hall.
      * destruct (marksLoop_ids ToString (columns table) M allMarks 1 ∅ Hall)
          as (ids & Hids & _).
        rewrite Hids. split; [discriminate|].
        intros (t & o & [= <- <-] & [H|H]); congruence.
      * rewrite marksLoop_throws by exact Hall. split; [|reflexivity].
        intros _. exists table, others. auto.
    + rewrite selectedLoop_throws by exact Hsel. cbn. split; [|reflexivity].
      intros _. exists table, others. auto.
Qed.

Lemma keysDefined_false_iff (cols : list Column) rows :
  keysDefined ToString cols rows = false
  <-> exists row col,
        row ∈ rows /\ col ∈ cols /\ getProp row (fieldName col) = VUndef.
Proof.
  unfold keysDefined. induction rows as [|row rows IH]; cbn [forallb].
  - split; [discriminate|]. intros (r & c & Hin & _).
    apply elem_of_nil in Hin as [].
  - rewrite andb_false_iff, IH. split.
    + intros [Hrow|(r & c & Hin & Hc & Hundef)].
      * destruct (rowKey ToString cols row) as [key|] eqn:Hkey; [discriminate|].
        apply keyLoop_throws_iff in Hkey. destruct Hkey as (c & Hc & Hundef).
        exists row, c. split; [apply list_elem_of_here|auto].
      * exists r, c. split; [apply list_elem_of_further, Hin|auto].
    + intros (r & c & Hin & Hc & Hundef). apply elem_of_cons in Hin.
      destruct Hin as [->|Hin]; [|right; eauto].
      left. unfold rowKey.
      rewrite (proj2 (keyLoop_throws_iff cols row ""))
        by (exists c; auto).
      reflexivity.
Qed.

(** X7: for a selection whose first table has columns of distinct field
    names, none of them [__proto__], and rows of [allMarks] whose prototype
    has not been replaced, [findIdsOfMarks] throws exactly when the
    selection has a table and either a data row of the first table is too
    short for the index of one of its columns, or a row of [allMarks]
    holds [undefined] under a column's field name, or has no such property
    while the name is not that of an inherited member. *)
Theorem findIdsOfMarks_throws_iff allMarks (selectedMarks : MarksCollection prim) :
  (forall table others,
     tables selectedMarks = table :: others ->
     NoDup (fieldName <$> columns table)
     /\ "__proto__" ∉ fieldName <$> columns table) ->
  (forall mark, mark ∈ allMarks -> mark !! "__proto__" = None) ->
  findIdsOfMarks ToString allMarks selectedMarks = TypeError
  <-> exists table others,
        tables selectedMarks = table :: others
        /\ ((exists cells col,
               cells ∈ data table /\ col ∈ columns table
               /\ (length cells <= index col)%nat)
            \/ (exists mark col,
                  mark ∈ allMarks /\ col ∈ columns table
                  /\ (mark !! fieldName col = Some VUndef
                      \/ (mark !! fieldName col = None
                          /\ inherited (fieldName col) = false)))).
Proof.
  intros Htable _. rewrite findIdsOfMarks_throws_keys.
  assert (forall table others,
            tables selectedMarks = table :: others ->
            forall (j : nat) cells col,
              data table !! j = Some cells -> col ∈ columns table ->
              getProp (namedRow (columns table) j cells) (fieldName col)
              = cellAt cells (index col)) as Hcell.
  { intros table others Heq j cells col Hcells Hcol.
    destruct (Htable table others Heq) as [Hnodup Hplain].
    unfold getProp, namedRow.
    rewrite (namedRow_fold_column (columns table) cells col _ Hnodup Hcol);
      [reflexivity|].
    intros Hname. apply Hplain. rewrite <- Hname.
    apply list_elem_of_fmap. exists col. auto. }
  split.
  - intros (table & others & Heq & Hkeys). exists table, others.
    split; [exact Heq|]. destruct Hkeys as [Hsel|Hall].
    + left. apply keysDefined_false_iff in Hsel.
      destruct Hsel as (row & col & Hrow & Hcol & Hundef).
      apply convertToListOfNamedRows_elem in Hrow.
      destruct Hrow as (j & cells & Hcells & ->).
      rewrite (Hcell table others Heq j cells col Hcells Hcol) in Hundef.
      exists cells, col. split; [apply list_elem_of_lookup; eauto|].
      split; [exact Hcol|]. unfold cellAt in Hundef.
      destruct (cells !! index col) as [d|] eqn:Hd; [discriminate|].
      apply lookup_ge_None_1, Hd.
    + right. apply keysDefined_false_iff in Hall.
      destruct Hall as (mark & col & Hmark & Hcol & Hundef).
      exists mark, col. split; [exact Hmark|]. split; [exact Hcol|].
      apply getProp_undefined_iff, Hundef.
  - intros (table & others & Heq & Hcases). exists table, others.
    split; [exact Heq|]. destruct Hcases as [Hshort|Hmark].
    + left. destruct Hshort as (cells & col & Hin & Hcol & Hlen).
      apply list_elem_of_lookup in Hin. destruct Hin as [j Hcells].
      apply keysDefined_false_iff.
      exists (namedRow (columns table) j cells), col.
      split; [apply convertToListOfNamedRows_elem; eauto|].
      split; [exact Hcol|].
      rewrite (Hcell table others Heq j cells col Hcells Hcol).
      unfold cellAt. rewrite (lookup_ge_None_2 _ _ Hlen). reflexivity.
    + right. destruct Hmark as (mark & col & Hin & Hcol & Hundef).
      apply keysDefined_false_iff. exists mark, col.
      split; [exact Hin|]. split; [exact Hcol|].
      apply getProp_undefined_iff, Hundef.
Qed.

Lemma marksLoop_bounded (cols : list Column) selectedMarkMap allMarks :
  forall (tupleId : Z) (ids0 ids : gset Z) (t : Z),
    marksLoop ToString cols selectedMarkMap tupleId ids0 allMarks = Ok ids ->
    t ∈ ids ->
    t ∈ ids0 \/ tupleId <= t < tupleId + Z.of_nat (length allMarks).
Proof.
  induction allMarks as [|mark allMarks IH]; intros tupleId ids0 ids t.
  - cbn. intros [= <-] Hin. left. exact Hin.
  - cbn [marksLoop].
    destruct (rowKey ToString cols mark) as [key|]; [|discriminate].
    cbn. intros Hloop Hin.
    destruct (IH _ _ _ _ Hloop Hin) as [Hold|Hnew]; [|right; lia].
    destruct (selectedMarkMap !! key); [|left; exact Hold].
    apply elem_of_union in Hold. destruct Hold as [Hold|Hold]; [|left; exact Hold].
    apply elem_of_singleton in Hold. right. lia.
Qed.

(** X8: every id that [findIdsOfMarks] returns is the position of a row of
    [allMarks]: it lies between 1 and the number of rows. *)
Theorem findIdsOfMarks_ids_in_range allMarks (selectedMarks : MarksCollection prim)
    (ids : gset Z) (t : Z) :
  findIdsOfMarks ToString allMarks selectedMarks = Ok ids ->
  t ∈ ids ->
  1 <= t <= Z.of_nat (length allMarks).
Proof.
  unfold findIdsOfMarks.
  destruct (tables selectedMarks) as [|table others].
  - intros [= <-] Hin. apply not_elem_of_empty in Hin as [].
  - destruct (selectedLoop ToString (columns table) ∅ (convertToListOfNamedRows table))
      as [M|]; [|discriminate].
    cbn. intros Hloop Hin.
    destruct (marksLoop_bounded _ _ _ _ _ _ _ Hloop Hin) as [Hempty|Hrange].
    + apply not_elem_of_empty in Hempty as [].
    + lia.
Qed.

(** X10: matching the rows of a table against a selection of that very
    table reports every row: the ids are exactly 1 up to the number of
    rows. *)
Theorem findIdsOfMarks_select_all (table : DataTable prim)
    (others : list (DataTable prim)) :
  keysDefined ToString (columns table) (convertToListOfNamedRows table) = true ->
  exists ids : gset Z,
    findIdsOfMarks ToString (convertToListOfNamedRows table)
      {| tables := table :: others |} = Ok ids
    /\ forall t, t ∈ ids <-> 1 <= t <= Z.of_nat (length (data table)).
Proof.
  intros Hsel.
  destruct (selectedLoop_keys ToString (columns table) _ ∅ Hsel) as (M & HM & Hkeys).
  destruct (marksLoop_ids ToString (columns table) M
              (convertToListOfNamedRows table) 1 ∅ Hsel) as (ids & Hids & Hmem).
  exists ids. split.
  - unfold findIdsOfMarks. cbn [tables]. rewrite HM. exact Hids.
  - intros t. rewrite Hmem. split.
    + intros [Hin|(k & mark & key & -> & Hk & _)];
        [apply not_elem_of_empty in Hin as []|].
      apply lookup_lt_Some in Hk.
      rewrite length_convertToListOfNamedRows in Hk. lia.
    + intros Ht. right.
      assert (Z.to_nat (t - 1) < length (convertToListOfNamedRows table))%nat
        as Hlt by (rewrite length_convertToListOfNamedRows; lia).
      apply lookup_lt_is_Some in Hlt. destruct Hlt as [mark Hmark].
      assert (mark ∈ convertToListOfNamedRows table) as Hin
        by (apply list_elem_of_lookup; eauto).
      assert (exists key, rowKey ToString (columns table) mark = Ok key)
        as [key Hkey].
      { unfold keysDefined in Hsel. rewrite forallb_forall in Hsel.
        apply list_elem_of_In in Hin. specialize (Hsel mark Hin).
        destruct (rowKey ToString (columns table) mark) as [key|];
          [eauto|discriminate]. }
      exists (Z.to_nat (t - 1)), mark, key.
      split; [lia|]. split; [exact Hmark|]. split; [exact Hkey|].
      apply Hkeys. right. exists mark. auto.
Qed.

End MatcherErrors.

Lemma rowKey_throws_iff_witness :
  (rowKey (fun s => s) [colA; colB] bareMark = TypeError
   <-> exists col,
         col ∈ [colA; colB]
         /\ (bareMark !! fieldName col = Some VUndef
             \/ (bareMark !! fieldName col = None
                 /\ inherited (fieldName col) = false)))
  /\ (forall col,
        (exists n, bareMark !! fieldName col = Some (VNum n))
        \/ (exists l, bareMark !! fieldName col = Some (VArr l))
        \/ (bareMark !! fieldName col = None /\ inherited (fieldName col) = true) ->
        rowKey (fun s => s) [col] bareMark = Ok ("undefined" ++ NUL)%string).
Proof.
  apply (rowKey_throws_iff (fun s => s) [colA; colB] bareMark).
  reflexivity.
Defined.

(** A row reads the members it inherits: under a column called
    [constructor] the key loop does not throw. *)
Example rowKey_inherited_column :
  rowKey (fun s => s) [ {| fieldName := "constructor"; index := 0%nat |} ] bareMark
  = Ok ("undefined" ++ NUL)%string.
Proof. vm_compute. reflexivity. Qed.

Lemma findIdsOfMarks_throws_iff_witness :
  findIdsOfMarks (fun s => s) [bareMark] {| tables := [selectedTable] |} = TypeError
  <-> exists table others,
        tables {| tables := [selectedTable] |} = table :: others
        /\ ((exists cells col,
               cells ∈ data table /\ col ∈ columns table
               /\ (length cells <= index col)%nat)
            \/ (exists mark col,
                  mark ∈ [bareMark] /\ col ∈ columns table
                  /\ (mark !! fieldName col = Some VUndef
                      \/ (mark !! fieldName col = None
                          /\ inherited (fieldName col) = false)))).
Proof.
  apply (findIdsOfMarks_throws_iff (fun s => s) [bareMark]
           {| tables := [selectedTable] |}).
  - intros table others [= <- <-]. split.
    + cbn. apply NoDup_cons. split; [|apply NoDup_singleton].
      rewrite list_elem_of_singleton. discriminate.
    + cbn. rewrite !not_elem_of_cons. repeat split; try discriminate.
      apply not_elem_of_nil.
  - intros mark Hmark. apply list_elem_of_singleton in Hmark. subst mark.
    reflexivity.
Defined.

Lemma findIdsOfMarks_ids_in_range_witness :
  1 <= 2 <= Z.of_nat (length (getSummaryDataTable [samplePage])).
Proof.
  apply (findIdsOfMarks_ids_in_range (fun s => s)
           (getSummaryDataTable [samplePage])
           {| tables := [selectedTable] |} {[ 2 ]} 2).
  - vm_compute. reflexivity.
  - apply elem_of_singleton. reflexivity.
Defined.

Lemma findIdsOfMarks_select_all_witness :
  exists ids : gset Z,
    findIdsOfMarks (fun s => s) (convertToListOfNamedRows samplePage)
      {| tables := samplePage :: [otherTable] |} = Ok ids
    /\ forall t, t ∈ ids <-> 1 <= t <= Z.of_nat (length (data samplePage)).
Proof.
  apply (findIdsOfMarks_select_all (fun s => s) samplePage [otherTable]).
  vm_compute. reflexivity.
Defined.

(** ** The separator *)

Lemma nulFree_cons (c : Ascii.ascii) (s : string) :
  nulFree (String c s) = true -> c <> Ascii.ascii_of_nat 0 /\ nulFree s = true.
Proof.
  cbn [nulFree]. intros H. apply andb_prop in H. destruct H as [Hc Hs].
  split; [|exact Hs]. intros ->. rewrite Ascii.eqb_refl in Hc. discriminate.
Qed.

(** Two strings free of the separator, each followed by the separator and a
    rest, agree only if they and their rests agree. *)
Lemma separator_splits (s : string) :
  forall (s' r r' : string),
    nulFree s = true -> nulFree s' = true ->
    (s ++ String (Ascii.ascii_of_nat 0) r)%string
    = (s' ++ String (Ascii.ascii_of_nat 0) r')%string ->
    s = s' /\ r = r'.
Proof.
  induction s as [|c s IH]; intros [|c' s'] r r' Hs Hs' Heq.
  - change (String (Ascii.ascii_of_nat 0) r = String (Ascii.ascii_of_nat 0) r')
      in Heq.
    injection Heq as ->. auto.
  - change (String (Ascii.ascii_of_nat 0) r
            = String c' (s' ++ String (Ascii.ascii_of_nat 0) r'))%string in Heq.
    apply nulFree_cons in Hs'. destruct Hs' as [Hc' _].
    injection Heq as Hc _. congruence.
  - change (String c (s ++ String (Ascii.ascii_of_nat 0) r)
            = String (Ascii.ascii_of_nat 0) r')%string in Heq.
    apply nulFree_cons in Hs. destruct Hs as [Hc _].
    injection Heq as Hc' _. congruence.
  - change (String c (s ++ String (Ascii.ascii_of_nat 0) r)
            = String c' (s' ++ String (Ascii.ascii_of_nat 0) r'))%string in Heq.
    apply nulFree_cons in Hs, Hs'. destruct Hs as [_ Hs]. destruct Hs' as [_ Hs'].
    injection Heq as -> Heq.
    destruct (IH s' r r' Hs Hs' Heq) as [-> ->]. auto.
Qed.

Lemma separator_not_empty (s r : string) :
  (s ++ String (Ascii.ascii_of_nat 0) r)%string <> "".
Proof. destruct s; discriminate. Qed.

(** With values free of the separator, the composite key determines the
    strings of the values, one by one. *)
Lemma compositeKey_strings {prim : Type} (ToString : prim -> string)
    (values values' : list (DataValue prim)) :
  forallb (fun d => nulFree (ToString (value d))) values = true ->
  forallb (fun d => nulFree (ToString (value d))) values' = true ->
  compositeKey ToString values = compositeKey ToString values' ->
  (fun d => ToString (value d)) <$> values
  = (fun d => ToString (value d)) <$> values'.
Proof.
  revert values'. induction values as [|d values IH];
    intros [|d' values'] Hfree Hfree' Heq.
  - reflexivity.
  - symmetry in Heq. apply separator_not_empty in Heq as [].
  - apply separator_not_empty in Heq as [].
  - cbn [forallb] in Hfree, Hfree'.
    apply andb_prop in Hfree, Hfree'.
    destruct Hfree as [Hd Hfree]. destruct Hfree' as [Hd' Hfree'].
    change (ToString (value d) ++ String (Ascii.ascii_of_nat 0)
              (compositeKey ToString values)
            = ToString (value d') ++ String (Ascii.ascii_of_nat 0)
                (compositeKey ToString values'))%string in Heq.
    destruct (separator_splits _ _ _ _ Hd Hd' Heq) as [Hhead Htail].
    rewrite !fmap_cons, Hhead, (IH values' Hfree Hfree' Htail). reflexivity.
Qed.

(** X9: two rows that hold a Data Value under every column's field name,
    none of whose strings contains the separator, get the same key from the
    key loop only if the strings of their values agree column by column:
    the separator keeps "a","bc" and "ab","c" apart. *)
Theorem rowKey_injective {prim : Type} (ToString : prim -> string)
    (cols : list Column) (row row' : gmap string (jsval prim))
    (values values' : list (DataValue prim)) :
  Forall2 (fun col d => row !! fieldName col = Some (VData d)) cols values ->
  Forall2 (fun col d => row' !! fieldName col = Some (VData d)) cols values' ->
  forallb (fun d => nulFree (ToString (value d))) values = true ->
  forallb (fun d => nulFree (ToString (value d))) values' = true ->
  rowKey ToString cols row = rowKey ToString cols row' ->
  (fun d => ToString (value d)) <$> values
  = (fun d => ToString (value d)) <$> values'.
Proof.
  intros Hrow Hrow' Hfree Hfree' Hkey.
  rewrite (rowKey_compositeKey ToString cols row values Hrow) in Hkey.
  rewrite (rowKey_compositeKey ToString cols row' values' Hrow') in Hkey.
  injection Hkey as Hkey.
  apply compositeKey_strings; assumption.
Qed.

Lemma rowKey_injective_witness :
  (fun d => (fun s : string => s) (value d)) <$> [cell "1"; cell "x"]
  = (fun d => (fun s : string => s) (value d)) <$> [cell "1"; cell "x"].
Proof.
  apply (rowKey_injective (fun s => s) [colA; colB]
           (namedRow [colA; colB] 0 [cell "1"; cell "x"])
           (namedRow [colB; colA] 7 [cell "1"; cell "x"; cell "z"])
           [cell "1"; cell "x"] [cell "1"; cell "x"]).
  - repeat constructor.
  - repeat constructor.
  - reflexivity.
  - reflexivity.
  - vm_compute. reflexivity.
Defined.

(** The key loop on the spec's example, and on values that contain the
    separator. *)
Example rowKey_separates :
  rowKey (fun s => s) [colA; colB] (namedRow [colA; colB] 0 [cell "a"; cell "bc"])
  <> rowKey (fun s => s) [colA; colB] (namedRow [colA; colB] 0 [cell "ab"; cell "c"])
  /\ rowKey (fun s => s) [colA]
       (namedRow [colA] 0 [cell ("a" ++ NUL ++ "b")])
     = rowKey (fun s => s) [colA; colB]
         (namedRow [colA; colB] 0 [cell "a"; cell "b"]).
Proof. split; [vm_compute; discriminate|vm_compute; reflexivity]. Qed.

(** ** The data encoder and its callers, continued *)

Section PipelineProperties.

Context {prim : Type} (ToString : prim -> string).

Implicit Types (row : gmap string (jsval prim)).
Implicit Types (rows : list (gmap string (jsval prim))).
Implicit Types (em : gmap string (list Field)).

Lemma encodeRow_dom em (tupleId : Z) row :
  dom (encodeRow em tupleId row) = {[ "$tupleId" ]} ∪ dom em.
Proof.
  apply set_eq. intros k.
  rewrite elem_of_union, !elem_of_dom, elem_of_singleton, encodeRow_lookup.
  destruct (em !! k) as [fields|] eqn:Hk.
  - split; [intros _; right; eauto|intros _; eauto].
  - destruct (decide (k = "$tupleId")) as [->|Hne].
    + rewrite lookup_singleton_eq. split; [intros _; left; reflexivity|eauto].
    + rewrite lookup_singleton_ne by congruence.
      split; [intros [x Hx]; discriminate|].
      intros [Heq|[x Hx]]; [congruence|discriminate].
Qed.

(** X11: the properties of every encoded row are [$tupleId] and the
    channels of the encoding map, and nothing of the input row's own
    properties; a channel called [$tupleId] takes the place of the Tuple
    ID. *)
Theorem encodeData_row_dom em rows (i : nat) (encodedRow : gmap string (jsval prim)) :
  encodeData em rows !! i = Some encodedRow ->
  dom encodedRow = {[ "$tupleId" ]} ∪ dom em
  /\ (forall fields, em !! "$tupleId" = Some fields ->
        exists values, encodedRow !! "$tupleId" = Some (VArr values)).
Proof.
  unfold encodeData. rewrite encodeLoop_lookup.
  destruct (rows !! i) as [row|]; [|discriminate].
  cbn. intros [= <-]. split; [apply encodeRow_dom|].
  intros fields Hfields. rewrite encodeRow_lookup, Hfields. eauto.
Qed.

Lemma getEncodedData_ok (worksheet : Worksheet prim) em :
  getEncodingMap (visualSpecification worksheet) = Ok em ->
  getEncodedData worksheet
  = Ok (encodeData em (getSummaryDataTable (summaryData worksheet))).
Proof.
  intros Hem. unfold getEncodedData, getDataAndVisualSpec.
  rewrite Hem. reflexivity.
Qed.

Lemma getEncodedData_throws (worksheet : Worksheet prim) :
  getEncodingMap (visualSpecification worksheet) = TypeError ->
  getEncodedData worksheet = TypeError.
Proof.
  intros Hem. unfold getEncodedData, getDataAndVisualSpec.
  rewrite Hem. reflexivity.
Qed.

Lemma encodeData_tupleId_at em rows (i : nat) :
  em !! "$tupleId" = None ->
  (i < length rows)%nat ->
  exists encodedRow : gmap string (jsval prim),
    encodeData em rows !! i = Some encodedRow
    /\ encodedRow !! "$tupleId" = Some (VNum (Z.of_nat i + 1)).
Proof.
  intros Hfree Hlt. apply lookup_lt_is_Some in Hlt. destruct Hlt as [row Hrow].
  exists (encodeRow em (Z.of_nat i + 1) row).
  split; [apply encodeData_lookup, Hrow|].
  rewrite encodeRow_lookup, Hfree. apply lookup_singleton_eq.
Qed.

(** X12: when the encoding map is built and has no channel called
    [$tupleId], [getEncodedData] returns one encoded row per data row of
    all the pages together, and the encoded rows carry the Tuple IDs 1, 2,
    ... in order, across the page boundaries. *)
Theorem getEncodedData_numbers_all_rows (worksheet : Worksheet prim) em :
  getEncodingMap (visualSpecification worksheet) = Ok em ->
  em !! "$tupleId" = None ->
  exists data : list (gmap string (jsval prim)),
    getEncodedData worksheet = Ok data
    /\ length data = rowCount (summaryData worksheet)
    /\ forall i : nat,
         (i < rowCount (summaryData worksheet))%nat ->
         exists encodedRow,
           data !! i = Some encodedRow
           /\ encodedRow !! "$tupleId" = Some (VNum (Z.of_nat i + 1)).
Proof.
  intros Hem Hfree.
  exists (encodeData em (getSummaryDataTable (summaryData worksheet))).
  split; [apply getEncodedData_ok, Hem|].
  split.
  - unfold encodeData. rewrite length_encodeLoop. apply length_getSummaryDataTable.
  - intros i Hi. apply encodeData_tupleId_at; [exact Hfree|].
    rewrite length_getSummaryDataTable. exact Hi.
Qed.

(** X13: the selected ids that [getEncodedDataAndSelectedTuples] returns
    name encoded rows of the data it returns: each id is the Tuple ID of
    the encoded row at that position (no channel being called
    [$tupleId]). *)
Theorem getEncodedDataAndSelectedTuples_ids_name_rows (worksheet : Worksheet prim)
    em (data : list (gmap string (jsval prim))) (ids : gset Z) (t : Z) :
  getEncodingMap (visualSpecification worksheet) = Ok em ->
  em !! "$tupleId" = None ->
  getEncodedDataAndSelectedTuples ToString worksheet = Ok (data, ids) ->
  t ∈ ids ->
  exists (k : nat) encodedRow,
    t = Z.of_nat k + 1
    /\ data !! k = Some encodedRow
    /\ encodedRow !! "$tupleId" = Some (VNum t).
Proof.
  intros Hem Hfree. unfold getEncodedDataAndSelectedTuples, getDataAndVisualSpec.
  rewrite Hem. cbn. unfold getSelectedMarks, findIdsOfMarks.
  destruct (tables (selectedMarksOf worksheet)) as [|table others].
  - cbn. intros [= <- <-] Hin. apply not_elem_of_empty in Hin as [].
  - destruct (selectedLoop ToString (columns table) ∅ (convertToListOfNamedRows table))
      as [M|]; [|discriminate].
    cbn.
    destruct (marksLoop ToString (columns table) M 1 ∅
                (getSummaryDataTable (summaryData worksheet))) as [ids'|] eqn:Hloop;
      [|discriminate].
    cbn. intros [= <- <-] Hin.
    destruct (marksLoop_bounded ToString _ _ _ _ _ _ _ Hloop Hin) as [Hempty|Hrange];
      [apply not_elem_of_empty in Hempty as []|].
    destruct (encodeData_tupleId_at em
                (getSummaryDataTable (summaryData worksheet))
                (Z.to_nat (t - 1)) Hfree) as (encodedRow & Hrow & Hid); [lia|].
    exists (Z.to_nat (t - 1)), encodedRow.
    split; [lia|]. split; [exact Hrow|].
    rewrite Hid. f_equal. f_equal. lia.
Qed.

(** X14: [fetchDataAndRender] renders the chart exactly when the encoding
    map is built, has a [needleValue] channel, and the summary data has at
    least one row; what it renders is then the encoded data. *)
Theorem fetchDataAndRender_renders_iff (before : list (gmap string (jsval prim)))
    (worksheet : Worksheet prim) (data : list (gmap string (jsval prim))) :
  snd (fetchDataAndRender before worksheet) = RenderGaugeChart data
  <-> exists em,
        getEncodingMap (visualSpecification worksheet) = Ok em
        /\ is_Some (em !! "needleValue")
        /\ (0 < rowCount (summaryData worksheet))%nat
        /\ data = encodeData em (getSummaryDataTable (summaryData worksheet)).
Proof.
  unfold fetchDataAndRender.
  destruct (getEncodingMap (visualSpecification worksheet)) as [em|] eqn:Hem.
  - rewrite (getEncodedData_ok worksheet em Hem).
    rewrite <- length_getSummaryDataTable.
    destruct (getSummaryDataTable (summaryData worksheet)) as [|row rows].
    + cbn. split; [discriminate|]. intros (em' & _ & _ & Hlen & _). lia.
    + cbn [encodeData encodeLoop snd]. unfold getProp.
      rewrite encodeRow_lookup.
      destruct (em !! "needleValue") as [fields|] eqn:Hneedle.
      * cbn [default truthy]. split.
        -- intros [= <-]. exists em. rewrite Hneedle.
           split; [reflexivity|]. split; [eauto|]. split; [cbn; lia|reflexivity].
        -- intros (em' & [= <-] & _ & _ & ->). reflexivity.
      * rewrite lookup_singleton_ne by discriminate. cbn [default truthy].
        split; [discriminate|]. intros (em' & [= <-] & [x Hx] & _).
        congruence.
  - rewrite (getEncodedData_throws worksheet Hem). cbn.
    split; [discriminate|]. intros (em' & Hem' & _). discriminate.
Qed.

End PipelineProperties.

Lemma encodeData_row_dom_witness :
  dom (encodeRow sampleEncodingMap 2 (namedRow [colA; colB] 1 [cell "2"; cell "y"]))
  = {[ "$tupleId" ]} ∪ dom sampleEncodingMap
  /\ (forall fields, sampleEncodingMap !! "$tupleId" = Some fields ->
        exists values,
          encodeRow sampleEncodingMap 2
            (namedRow [colA; colB] 1 [cell "2"; cell "y"]) !! "$tupleId"
          = Some (VArr values)).
Proof.
  apply (encodeData_row_dom sampleEncodingMap (getSummaryDataTable [samplePage]) 1).
  vm_compute. reflexivity.
Defined.

Lemma getEncodedData_numbers_all_rows_witness :
  exists data : list (gmap string (jsval string)),
    getEncodedData sampleWorksheet = Ok data
    /\ length data = rowCount (summaryData sampleWorksheet)
    /\ forall i : nat,
         (i < rowCount (summaryData sampleWorksheet))%nat ->
         exists encodedRow,
           data !! i = Some encodedRow
           /\ encodedRow !! "$tupleId" = Some (VNum (Z.of_nat i + 1)).
Proof.
  apply (getEncodedData_numbers_all_rows sampleWorksheet
           (<["needleValue" := [ {| name := "A" |} ]]> ∅)).
  - vm_compute. reflexivity.
  - vm_compute. reflexivity.
Defined.

Lemma getEncodedDataAndSelectedTuples_ids_name_rows_witness :
  exists (k : nat) encodedRow,
    2 = Z.of_nat k + 1
    /\ encodeData (<["needleValue" := [ {| name := "A" |} ]]> ∅)
         (getSummaryDataTable [firstPage; secondPage]) !! k = Some encodedRow
    /\ encodedRow !! "$tupleId" = Some (VNum 2).
Proof.
  apply (getEncodedDataAndSelectedTuples_ids_name_rows (fun s => s)
           sampleWorksheet (<["needleValue" := [ {| name := "A" |} ]]> ∅)
           _ {[ 2 ]} 2).
  - vm_compute. reflexivity.
  - vm_compute. reflexivity.
  - vm_compute. reflexivity.
  - apply elem_of_singleton. reflexivity.
Defined.

(** The sample worksheet is rendered; without the [needleValue] channel it
    is not. *)
Example fetchDataAndRender_sample :
  snd (fetchDataAndRender [] sampleWorksheet)
  = RenderGaugeChart
      (encodeData (<["needleValue" := [ {| name := "A" |} ]]> ∅)
         (getSummaryDataTable [firstPage; secondPage]))
  /\ snd (fetchDataAndRender []
            {| summaryData := [firstPage; secondPage];
               visualSpecification := sampleVisualSpec;
               selectedMarksOf := {| tables := [] |} |})
     = WarnNoValidData.
Proof. split; vm_compute; reflexivity. Qed.

(** ** Fog colours, continued *)

(** A property checked on each of the 256 channel values holds of every
    channel. *)
Lemma channel_cases (P : Z -> bool) :
  forallb P (Z.of_nat <$> seq 0 256) = true ->
  forall c, isChannel c -> P c = true.
Proof.
  intros Hall c [Hlo Hhi]. rewrite forallb_forall in Hall. apply Hall.
  apply list_elem_of_In, list_elem_of_fmap. exists (Z.to_nat c).
  split; [lia|]. apply elem_of_seq. lia.
Qed.

(** The channel [calculateFogColor] computes from one input channel. *)
Lemma calculateFogColor_channel (c : Z) :
  isChannel c ->
  199 <= Fog.ToUint32 (Fog.Number 199 + Fog.Number c * Fog.fogBlendFactor)%float
      <= 246.
Proof.
  intros Hc.
  pose proof (channel_cases
    (fun c => let out :=
                Fog.ToUint32 (Fog.Number 199 + Fog.Number c * Fog.fogBlendFactor)%float
              in (199 <=? out) && (out <=? 246))) as Hcases.
  cbv zeta in Hcases. specialize (Hcases ltac:(vm_compute; reflexivity) c Hc).
  apply andb_prop in Hcases. destruct Hcases as [Hlo Hhi].
  apply Z.leb_le in Hlo, Hhi. lia.
Qed.

(** X15: for every colour with channels of 0..255, the channels
    [calculateFogColor] computes lie between 199, the fogged white
    background, and 246: the result is again a colour, and no fogged colour
    is darker than the fogged background. *)
Theorem calculateFogColor_range (color : Fog.Rgb) :
  isColor color ->
  199 <= Fog.r (Fog.calculateFogColor color) <= 246
  /\ 199 <= Fog.g (Fog.calculateFogColor color) <= 246
  /\ 199 <= Fog.b (Fog.calculateFogColor color) <= 246.
Proof.
  intros (Hr & Hg & Hb).
  assert (Fog.foggedBackground
          = {| Fog.foggedBackgroundRed := 199;
               Fog.foggedBackgroundGreen := 199;
               Fog.foggedBackgroundBlue := 199 |}) as Hbg
    by (vm_compute; reflexivity).
  unfold Fog.calculateFogColor. rewrite Hbg. cbn [Fog.r Fog.g Fog.b
    Fog.foggedBackgroundRed Fog.foggedBackgroundGreen Fog.foggedBackgroundBlue].
  split; [apply calculateFogColor_channel, Hr|].
  split; [apply calculateFogColor_channel, Hg|apply calculateFogColor_channel, Hb].
Qed.

Lemma calculateFogColor_range_witness :
  199 <= Fog.r (Fog.calculateFogColor pureRed) <= 246
  /\ 199 <= Fog.g (Fog.calculateFogColor pureRed) <= 246
  /\ 199 <= Fog.b (Fog.calculateFogColor pureRed) <= 246.
Proof.
  apply (calculateFogColor_range pureRed).
  unfold isColor, isChannel. cbn. lia.
Defined.

Lemma fogChannel_darkens (fogBlendFactor : float) (c : Z) :
  fogBlendFactor = Fog.DarkBgFogBlendFactor
  \/ fogBlendFactor = Fog.DefaultFogBlendFactor ->
  isChannel c ->
  0 <= Fog.fogChannel fogBlendFactor c <= c.
Proof.
  intros [-> | ->] Hc.
  - pose proof (channel_cases
      (fun c => (0 <=? Fog.fogChannel Fog.DarkBgFogBlendFactor c)
                && (Fog.fogChannel Fog.DarkBgFogBlendFactor c <=? c))
      ltac:(vm_compute; reflexivity) c Hc) as H.
    cbv beta in H. apply andb_prop in H. destruct H as [Hlo Hhi].
    apply Z.leb_le in Hlo, Hhi. lia.
  - pose proof (channel_cases
      (fun c => (0 <=? Fog.fogChannel Fog.DefaultFogBlendFactor c)
                && (Fog.fogChannel Fog.DefaultFogBlendFactor c <=? c))
      ltac:(vm_compute; reflexivity) c Hc) as H.
    cbv beta in H. apply andb_prop in H. destruct H as [Hlo Hhi].
    apply Z.leb_le in Hlo, Hhi. lia.
Qed.

Lemma getFogBlendFactor_cases (color : Fog.Rgb) :
  Fog.getFogBlendFactor color = Fog.DarkBgFogBlendFactor
  \/ Fog.getFogBlendFactor color = Fog.DefaultFogBlendFactor.
Proof.
  unfold Fog.getFogBlendFactor.
  destruct ((Fog.r color <=? Fog.DarkBgThreshold)
            && (Fog.g color <=? Fog.DarkBgThreshold)
            && (Fog.b color <=? Fog.DarkBgThreshold)); auto.
Qed.

(** X16: for every background with channels of 0..255, fogged with the
    blend factor chosen for it, each fogged channel lies between 0 and the
    background's own channel: fogging never brightens the background and
    never leaves the range of a colour. *)
Theorem computeFoggedBackgroundColor_darkens (color : Fog.Rgb) :
  isColor color ->
  0 <= Fog.foggedBackgroundRed
         (Fog.computeFoggedBackgroundColor color (Fog.getFogBlendFactor color))
    <= Fog.r color
  /\ 0 <= Fog.foggedBackgroundGreen
            (Fog.computeFoggedBackgroundColor color (Fog.getFogBlendFactor color))
       <= Fog.g color
  /\ 0 <= Fog.foggedBackgroundBlue
            (Fog.computeFoggedBackgroundColor color (Fog.getFogBlendFactor color))
       <= Fog.b color.
Proof.
  intros (Hr & Hg & Hb).
  pose proof (getFogBlendFactor_cases color) as Hf.
  pose proof (fogChannel_darkens _ _ Hf Hr) as Hfr.
  pose proof (fogChannel_darkens _ _ Hf Hg) as Hfg.
  pose proof (fogChannel_darkens _ _ Hf Hb) as Hfb.
  assert (isChannel 245) as H245 by (unfold isChannel; lia).
  pose proof (fogChannel_darkens _ _ Hf H245) as Hw.
  unfold Fog.computeFoggedBackgroundColor, Fog.CloseToWhite.
  destruct (Z.geb_spec (Fog.r color) 245) as [Hr'|Hr'];
    destruct (Z.geb_spec (Fog.g color) 245) as [Hg'|Hg'];
    destruct (Z.geb_spec (Fog.b color) 245) as [Hb'|Hb'];
    cbn [andb Fog.r Fog.g Fog.b Fog.foggedBackgroundRed
         Fog.foggedBackgroundGreen Fog.foggedBackgroundBlue]; lia.
Qed.

Lemma computeFoggedBackgroundColor_darkens_witness :
  0 <= Fog.foggedBackgroundRed
         (Fog.computeFoggedBackgroundColor pureRed (Fog.getFogBlendFactor pureRed))
    <= Fog.r pureRed
  /\ 0 <= Fog.foggedBackgroundGreen
            (Fog.computeFoggedBackgroundColor pureRed (Fog.getFogBlendFactor pureRed))
       <= Fog.g pureRed
  /\ 0 <= Fog.foggedBackgroundBlue
            (Fog.computeFoggedBackgroundColor pureRed (Fog.getFogBlendFactor pureRed))
       <= Fog.b pureRed.
Proof.
  apply (computeFoggedBackgroundColor_darkens pureRed).
  unfold isColor, isChannel. cbn. lia.
Defined.
